(** * Tabular policy iteration (rl_exercises/week_2/policy_iteration.py)

    A shallow embedding of the three numerical routines [policy_evaluation],
    [policy_improvement] and [policy_iteration], and of the agent wrapper
    [PolicyIteration] with its [update_agent], [save] and [load] methods.

    Modelling choices.
    - The numerical routines are embedded twice.  Over the rationals
      ([Q]), where no operation rounds, for what does not depend on the
      rounding: the control flow of the loops, the shapes, the
      exceptions, the number of rounds.  And in the module [Binary64]
      over binary64 floats (IEEE 754 double precision, round to nearest
      even, with infinities and NaN), which is what a numpy [float64]
      is, for what depends on the values computed: whether policy
      evaluation stops, the entries of [Q], the greedy action.
    - An [ndarray] is a nested list; an integer array is a [list Z].
      Indexing follows numpy: a negative index counts from the end and
      an index outside the array raises [IndexError].
    - A Python exception is a [Raise e] outcome; a [while True] loop is a
      recursion on a fuel counter whose exhaustion is [OutOfFuel].  A run
      that is [OutOfFuel] for every fuel is a run that never returns.
    - The file system seen by [np.save]/[np.load] is a finite map from
      path to stored array. *)

From Stdlib Require Import QArith Qabs Qminmax Lqa ZArith Lia Floats.
From stdpp Require Import base list gmap strings.

Local Open Scope Q_scope.

(** ** Outcomes of Python computations *)

Inductive exn : Type :=
  | IndexError
  | ValueError
  | FileNotFoundError.

Inductive outcome (A : Type) : Type :=
  | Return (a : A)
  | Raise (e : exn)
  | OutOfFuel.

Arguments Return {A} a.
Arguments Raise {A} e.
Arguments OutOfFuel {A}.

Definition bind {A B : Type} (m : outcome A) (k : A -> outcome B) : outcome B :=
  match m with
  | Return a => k a
  | Raise e => Raise e
  | OutOfFuel => OutOfFuel
  end.

Notation "'let*' x ':=' m 'in' k" := (bind m (fun x => k))
  (at level 10, x pattern, m at level 100, k at level 200,
   format "'[v' 'let*'  x  ':='  m  'in' '/' k ']'").

(** A computation never returns when no amount of fuel lets it finish. *)
Definition diverges {A : Type} (run : nat -> outcome A) : Prop :=
  forall fuel : nat, run fuel = OutOfFuel.

(** ** numpy primitives *)

(** [x < y] on floats, as a boolean. *)
Definition Qltb (x y : Q) : bool :=
  (Qnum x * QDen y <? Qnum y * QDen x)%Z.

(** [a[i]] for a Python integer [i]: negative indices wrap once. *)
Definition getitem {A : Type} (a : list A) (i : Z) : outcome A :=
  let n := Z.of_nat (length a) in
  let j := if (i <? 0)%Z then (i + n)%Z else i in
  if (j <? 0)%Z then Raise IndexError
  else match a !! Z.to_nat j with
       | Some x => Return x
       | None => Raise IndexError
       end.

(** [a[i] = x] for [i] drawn from a [range]. *)
Definition setitem {A : Type} (a : list A) (i : nat) (x : A) : outcome (list A) :=
  if (i <? length a)%nat then Return (<[i := x]> a) else Raise IndexError.

(** [a[i, j] = x]. *)
Definition setitem2 {A : Type} (a : list (list A)) (i j : nat) (x : A)
  : outcome (list (list A)) :=
  match a !! i with
  | Some row => let* row' := setitem row j x in Return (<[i := row']> a)
  | None => Raise IndexError
  end.

(** [np.zeros(n)] and [np.zeros((n, m))]. *)
Definition np_zeros (n : nat) : list Q := replicate n 0.
Definition np_zeros2 (n m : nat) : list (list Q) := replicate n (np_zeros m).
(** [np.zeros(n, dtype=int)]. *)
Definition np_zeros_int (n : nat) : list Z := replicate n 0%Z.

(** [np.arange(n)]. *)
Definition np_arange (n : nat) : list Z := map Z.of_nat (seq 0 n).

(** [a - b] and [np.abs(a)] on arrays of one shape. *)
Definition np_sub (a b : list Q) : list Q := zip_with Qminus a b.
Definition np_abs (a : list Q) : list Q := map Qabs a.

(** [np.max(a)]: the reduction has no identity, an empty array is an error. *)
Definition np_max (a : list Q) : outcome Q :=
  match a with
  | [] => Raise ValueError
  | x :: rest => Return (fold_left Qmax rest x)
  end.

(** [np.argmax] on one row: the running maximum is replaced only by a
    strictly larger entry, so the first occurrence of the maximum wins. *)
Fixpoint argmax_from (best : Q) (best_i i : nat) (row : list Q) : nat :=
  match row with
  | [] => best_i
  | x :: rest =>
      if Qltb best x then argmax_from x i (S i) rest
      else argmax_from best best_i (S i) rest
  end.

Definition np_argmax (row : list Q) : outcome Z :=
  match row with
  | [] => Raise ValueError
  | x :: rest => Return (Z.of_nat (argmax_from x 0 1 rest))
  end.

(** The index [np.argmax] returns on a non-empty row. *)
Definition first_argmax (row : list Q) : nat :=
  match row with
  | [] => 0%nat
  | x :: rest => argmax_from x 0 1 rest
  end.

(** [np.argmax(Q, axis=1)]. *)
Fixpoint np_argmax_axis1 (Qm : list (list Q)) : outcome (list Z) :=
  match Qm with
  | [] => Return []
  | row :: rest =>
      let* i := np_argmax row in
      let* js := np_argmax_axis1 rest in
      Return (i :: js)
  end.

(** [np.array_equal(a, b)]: same shape and same entries. *)
Definition np_array_equal (a b : list Z) : bool := bool_decide (a = b).

(** [R_sa.shape] of a two-dimensional array.  A nested list without rows
    has no row to take the second dimension from and stands for the
    shape [(0, 0)]. *)
Definition shape2 {A : Type} (a : list (list A)) : nat * nat :=
  (length a, match a with [] => 0%nat | row :: _ => length row end).

(** ** Python control structures *)

(** [sum(f(i) for i in idx)]: the builtin starts from 0 and adds from the left. *)
Fixpoint py_sum (f : nat -> outcome Q) (idx : list nat) (acc : Q) : outcome Q :=
  match idx with
  | [] => Return acc
  | i :: rest => let* x := f i in py_sum f rest (acc + x)
  end.

(** [for i in idx: st = body(i, st)]. *)
Fixpoint for_range {St : Type} (idx : list nat) (body : nat -> St -> outcome St)
    (st : St) : outcome St :=
  match idx with
  | [] => Return st
  | i :: rest => let* st' := body i st in for_range rest body st'
  end.

(** ** The numerical core *)

Abbreviation tensor := (list (list (list Q))).
Abbreviation matrix := (list (list Q)).

(** [T[s, a, s_next] * (R_sa[s, a] + gamma * V[s_next])]. *)
Definition backup_term (T : tensor) (R_sa : matrix) (gamma : Q) (V : list Q)
    (s a : Z) (s_next : nat) : outcome Q :=
  let* Ts := getitem T s in
  let* Tsa := getitem Ts a in
  let* t := getitem Tsa (Z.of_nat s_next) in
  let* Rs := getitem R_sa s in
  let* r := getitem Rs a in
  let* v := getitem V (Z.of_nat s_next) in
  Return (t * (r + gamma * v)).

(** [sum(T[s, a, s_next] * (R_sa[s, a] + gamma * V[s_next])
        for s_next in range(nS))]. *)
Definition backup (T : tensor) (R_sa : matrix) (gamma : Q) (V : list Q)
    (nS : nat) (s a : Z) : outcome Q :=
  py_sum (backup_term T R_sa gamma V s a) (seq 0 nS) 0.

(** One pass of the [for s in range(nS)] loop of [policy_evaluation]:
    [V_new] starts as zeros and every entry is written from the old [V]. *)
Definition evaluation_sweep (pi : list Z) (T : tensor) (R_sa : matrix)
    (gamma : Q) (nS : nat) (V : list Q) : outcome (list Q) :=
  for_range (seq 0 nS)
    (fun s V_new =>
       let* a := getitem pi (Z.of_nat s) in
       let* x := backup T R_sa gamma V nS (Z.of_nat s) a in
       setitem V_new s x)
    (np_zeros nS).

(** The [while True] loop of [policy_evaluation]. *)
Fixpoint evaluation_loop (fuel : nat) (pi : list Z) (T : tensor) (R_sa : matrix)
    (gamma epsilon : Q) (nS : nat) (V : list Q) : outcome (list Q) :=
  match fuel with
  | O => OutOfFuel
  | S fuel' =>
      let* V_new := evaluation_sweep pi T R_sa gamma nS V in
      let* d := np_max (np_abs (np_sub V_new V)) in
      if Qltb d epsilon then Return V
      else evaluation_loop fuel' pi T R_sa gamma epsilon nS V_new
  end.

Definition policy_evaluation (fuel : nat) (pi : list Z) (T : tensor)
    (R_sa : matrix) (gamma epsilon : Q) : outcome (list Q) :=
  let nS := length R_sa in
  let V := np_zeros nS in
  evaluation_loop fuel pi T R_sa gamma epsilon nS V.

(** The doubly nested loop of [policy_improvement] filling [Q]. *)
Definition fill_Q (V : list Q) (T : tensor) (R_sa : matrix) (gamma : Q)
    (nS nA : nat) (Q0 : matrix) : outcome matrix :=
  for_range (seq 0 nS)
    (fun s Qm =>
       for_range (seq 0 nA)
         (fun a Qm' =>
            let* x := backup T R_sa gamma V nS (Z.of_nat s) (Z.of_nat a) in
            setitem2 Qm' s a x)
         Qm)
    Q0.

Definition policy_improvement (V : list Q) (T : tensor) (R_sa : matrix)
    (gamma : Q) : outcome (matrix * list Z) :=
  let '(nS, nA) := shape2 R_sa in
  let Q0 := np_zeros2 nS nA in
  let* Qm := fill_Q V T R_sa gamma nS nA Q0 in
  let* pi_new := np_argmax_axis1 Qm in
  Return (Qm, pi_new).

(** The MDP tuple [(S, A, T, R_sa, gamma)]. *)
Abbreviation mdp := (list Z * list Z * tensor * matrix * Q)%type.

(** The [while True] loop of [policy_iteration]; [Qm] is the table bound
    to the name [Q], overwritten by every round. *)
Fixpoint iteration_loop (fuel : nat) (Qm : matrix) (pi : list Z) (T : tensor)
    (R_sa : matrix) (gamma epsilon : Q) (steps : nat)
  : outcome (matrix * list Z * nat) :=
  match fuel with
  | O => OutOfFuel
  | S fuel' =>
      let* V := policy_evaluation fuel pi T R_sa gamma epsilon in
      let* (Qm', pi_new) := policy_improvement V T R_sa gamma in
      let steps := (steps + 1)%nat in
      if np_array_equal pi pi_new then Return (Qm', pi, steps)
      else iteration_loop fuel' Qm' pi_new T R_sa gamma epsilon steps
  end.

Definition policy_iteration (fuel : nat) (Qm : matrix) (pi : list Z) (MDP : mdp)
    (epsilon : Q) : outcome (matrix * list Z * nat) :=
  let '(S_, A_, T, R_sa, gamma) := MDP in
  let steps := 0%nat in
  iteration_loop fuel Qm pi T R_sa gamma epsilon steps.

(** The default [epsilon = 1e-8]. *)
Definition default_epsilon : Q := 1 # 100000000.

(** ** The agent wrapper [PolicyIteration] *)

(** What the wrapper uses of its environment: the sizes of the two
    discrete spaces and the two accessors of the MDP. *)
Record environment : Type := {
  observation_space_n : nat;
  action_space_n : nat;
  get_transition_matrix : tensor;
  get_reward_per_action : matrix
}.

(** The attributes of a [PolicyIteration] object; [None] is Python's [None]. *)
Record agent : Type := {
  env : environment;
  seed : Z;
  filename : string;
  n_obs : nat;
  n_actions : nat;
  S_ : option (list Z);
  A_ : option (list Z);
  T_ : option tensor;
  gamma_ : Q;
  R_sa_ : option matrix;
  pi_ : option (list Z);
  Q_ : option matrix;
  policy_fitted : bool;
  steps_ : nat
}.

(** [__init__], for an environment that is already unwrapped. *)
Definition init (e : environment) (gamma : Q) (sd : Z) (file : string) : agent :=
  {| env := e; seed := sd; filename := file;
     n_obs := observation_space_n e; n_actions := action_space_n e;
     S_ := None; A_ := None; T_ := None; gamma_ := gamma; R_sa_ := None;
     pi_ := None; Q_ := None; policy_fitted := false; steps_ := 0 |}.

(** The state of [self] after the assignments that precede the call of
    [policy_iteration] in [update_agent]. *)
Definition prepare (self : agent) : agent :=
  {| env := env self; seed := seed self; filename := filename self;
     n_obs := n_obs self; n_actions := n_actions self;
     S_ := Some (np_arange (n_obs self));
     A_ := Some (np_arange (n_actions self));
     T_ := Some (get_transition_matrix (env self));
     gamma_ := gamma_ self;
     R_sa_ := Some (get_reward_per_action (env self));
     pi_ := Some (np_zeros_int (n_obs self));
     Q_ := Some (np_zeros2 (n_obs self) (n_actions self));
     policy_fitted := policy_fitted self; steps_ := steps_ self |}.

(** [self.Q, self.pi, self.steps = ...; self.policy_fitted = True]. *)
Definition store_result (self : agent) (Qm : matrix) (pi : list Z) (steps : nat)
  : agent :=
  {| env := env self; seed := seed self; filename := filename self;
     n_obs := n_obs self; n_actions := n_actions self;
     S_ := S_ self; A_ := A_ self; T_ := T_ self; gamma_ := gamma_ self;
     R_sa_ := R_sa_ self;
     pi_ := Some pi; Q_ := Some Qm; policy_fitted := true; steps_ := steps |}.

(** [update_agent]: the object after the call, and how the call ended. *)
Definition update_agent (fuel : nat) (self : agent) : agent * outcome unit :=
  if negb (policy_fitted self) then
    let self1 := prepare self in
    match policy_iteration fuel
            (np_zeros2 (n_obs self) (n_actions self))
            (np_zeros_int (n_obs self))
            (np_arange (n_obs self), np_arange (n_actions self),
             get_transition_matrix (env self),
             get_reward_per_action (env self), gamma_ self)
            default_epsilon with
    | Return (Qm, pi, steps) => (store_result self1 Qm pi steps, Return tt)
    | Raise e => (self1, Raise e)
    | OutOfFuel => (self1, OutOfFuel)
    end
  else (self, Return tt).

(** What a [.npy] file holds: an integer array, or the pickled object
    array that [np.array(None)] is. *)
Inductive npy : Type :=
  | NpyInt (a : list Z)
  | NpyObject.

(** [np.array(self.pi)]. *)
Definition np_array (pi : option (list Z)) : npy :=
  match pi with
  | Some a => NpyInt a
  | None => NpyObject
  end.

(** The world outside the object: the files and the warnings issued. *)
Record world : Type := {
  files : gmap string npy;
  warnings : list string
}.

Definition ends_with_npy (file : string) : bool :=
  let n := String.length file in
  (4 <=? n)%nat && String.eqb (String.substring (n - 4) 4 file) ".npy".

(** [np.save] appends the extension [.npy] to a file name that lacks it. *)
Definition np_save_path (file : string) : string :=
  if ends_with_npy file then file else (file ++ ".npy")%string.

Definition np_save (file : string) (a : npy) (w : world) : world :=
  {| files := <[np_save_path file := a]> (files w); warnings := warnings w |}.

(** [np.load] with its default [allow_pickle=False]. *)
Definition np_load (file : string) (w : world) : outcome (list Z) :=
  match files w !! file with
  | None => Raise FileNotFoundError
  | Some (NpyInt a) => Return a
  | Some NpyObject => Raise ValueError
  end.

Definition warnings_warn (msg : string) (w : world) : world :=
  {| files := files w; warnings := warnings w ++ [msg] |}.

(** [save]. *)
Definition save (self : agent) (w : world) : world :=
  if policy_fitted self then np_save (filename self) (np_array (pi_ self)) w
  else warnings_warn "Tried to save policy but policy is not fitted yet." w.

(** [self.pi = a; self.policy_fitted = True]. *)
Definition store_loaded (self : agent) (a : list Z) : agent :=
  {| env := env self; seed := seed self; filename := filename self;
     n_obs := n_obs self; n_actions := n_actions self;
     S_ := S_ self; A_ := A_ self; T_ := T_ self; gamma_ := gamma_ self;
     R_sa_ := R_sa_ self;
     pi_ := Some a; Q_ := Q_ self; policy_fitted := true;
     steps_ := steps_ self |}.

(** [load]: the object after the call and the value returned. *)
Definition load (self : agent) (w : world) : agent * outcome (list Z) :=
  match np_load (filename self) w with
  | Return a => (store_loaded self a, Return a)
  | Raise e => (self, Raise e)
  | OutOfFuel => (self, OutOfFuel)
  end.


(** ** The data model of the specification *)

Definition has_shape1 {A : Type} (n : nat) (a : list A) : bool :=
  (length a =? n)%nat.
Definition has_shape2 {A : Type} (n m : nat) (a : list (list A)) : bool :=
  (length a =? n)%nat && forallb (has_shape1 m) a.
Definition has_shape3 {A : Type} (n m k : nat) (a : list (list (list A))) : bool :=
  (length a =? n)%nat && forallb (has_shape2 m k) a.

(** A probability distribution: entries at least 0 that sum to 1. *)
Definition row_stochastic (row : list Q) : bool :=
  forallb (Qle_bool 0) row && Qeq_bool (fold_left Qplus row 0) 1.

(** A valid MDP: at least one state and one action, [R_sa] of shape
    [(nS, nA)], [T] of shape [(nS, nA, nS)] with every [T[s, a, :]] a
    probability distribution. *)
Definition valid_mdp (T : tensor) (R_sa : matrix) : bool :=
  let '(nS, nA) := shape2 R_sa in
  (0 <? nS)%nat && (0 <? nA)%nat && has_shape2 nS nA R_sa
  && has_shape3 nS nA nS T && forallb (forallb row_stochastic) T.

(** The number of actions of an MDP, [R_sa.shape[1]]. *)
Definition num_actions (R_sa : matrix) : nat := snd (shape2 R_sa).

(** A deterministic policy: one action index per state. *)
Definition valid_policy (nS nA : nat) (pi : list Z) : bool :=
  (length pi =? nS)%nat
  && forallb (fun a => (0 <=? a)%Z && (a <? Z.of_nat nA)%Z) pi.

(** Array entries as total functions, for the mathematical statements. *)
Definition T_at (T : tensor) (s a s_next : nat) : Q :=
  nth s_next (nth a (nth s T []) []) 0.
Definition R_at (R_sa : matrix) (s a : nat) : Q := nth a (nth s R_sa []) 0.
Definition V_at (V : list Q) (s : nat) : Q := nth s V 0.
Definition pi_at (pi : list Z) (s : nat) : nat := Z.to_nat (nth s pi 0%Z).

(** [Qsum f n] is the sum of [f 0], ..., [f (n - 1)]. *)
Fixpoint Qsum (f : nat -> Q) (n : nat) : Q :=
  match n with
  | O => 0
  | S n' => Qsum f n' + f n'
  end.

(** The right-hand side of the Bellman equation,
    [sum_{s'} T[s,a,s'] * (R_sa[s,a] + gamma * V[s'])]. *)
Definition bellman_rhs (T : tensor) (R_sa : matrix) (gamma : Q) (V : list Q)
    (nS s a : nat) : Q :=
  Qsum (fun s_next => T_at T s a s_next * (R_at R_sa s a + gamma * V_at V s_next)) nS.

(** The synchronous update of every state under the policy [pi]. *)
Definition bellman_operator (pi : list Z) (T : tensor) (R_sa : matrix)
    (gamma : Q) (nS : nat) (V : list Q) : list Q :=
  map (fun s => bellman_rhs T R_sa gamma V nS s (pi_at pi s)) (seq 0 nS).

(** [geometric g k] is [g] to the power [k]. *)
Fixpoint geometric (g : Q) (k : nat) : Q :=
  match k with
  | O => 1
  | S k' => g * geometric g k'
  end.

(** The stopping test of [policy_evaluation] at [V]: one more update
    moves every state by less than [epsilon]. *)
Definition within_tolerance (pi : list Z) (T : tensor) (R_sa : matrix)
    (gamma epsilon : Q) (V : list Q) : Prop :=
  forall s, (s < length R_sa)%nat ->
    Qabs (V_at (bellman_operator pi T R_sa gamma (length R_sa) V) s - V_at V s)
    < epsilon.

(** ** The driver loop as the specification words it *)

(** One round from [pi]: evaluate [pi] to [V], improve [V] to the table
    [Qm] and the policy [pi_new]. *)
Definition round (T : tensor) (R_sa : matrix) (gamma epsilon : Q)
    (pi : list Z) (Qm : matrix) (pi_new : list Z) : Prop :=
  exists fuel V,
    policy_evaluation fuel pi T R_sa gamma epsilon = Return V
    /\ policy_improvement V T R_sa gamma = Return (Qm, pi_new).

(** [rounds n pi Qm pi'] : started at [pi], the loop makes [n] rounds and
    stops with the table [Qm] and the policy [pi'].  A round whose new
    policy equals the current one is the last; any other round replaces
    the policy and is followed by a further round. *)
Inductive rounds (T : tensor) (R_sa : matrix) (gamma epsilon : Q)
  : nat -> list Z -> matrix -> list Z -> Prop :=
  | rounds_stop (pi : list Z) (Qm : matrix) :
      round T R_sa gamma epsilon pi Qm pi ->
      rounds T R_sa gamma epsilon 1 pi Qm pi
  | rounds_next (n : nat) (pi pi_new pi' : list Z) (Qm' Qm : matrix) :
      round T R_sa gamma epsilon pi Qm' pi_new ->
      pi <> pi_new ->
      rounds T R_sa gamma epsilon n pi_new Qm pi' ->
      rounds T R_sa gamma epsilon (S n) pi Qm pi'.

(** A matrix of [n] rows of length [m]. *)
Definition shaped (n m : nat) (a : matrix) : Prop :=
  length a = n /\ Forall (fun row => length row = m) a.

(** Every deterministic policy on [nS] states and [nA] actions. *)
Fixpoint all_policies (nS nA : nat) : list (list Z) :=
  match nS with
  | O => [[]]
  | S n => flat_map (fun a => map (cons a) (all_policies n nA)) (np_arange nA)
  end.

(** The exceptions array indexing and the reductions can raise. *)
Definition array_error (e : exn) : Prop := e = IndexError \/ e = ValueError.

(** Every exception the outcome can be satisfies [P]. *)
Definition raises_only {A : Type} (P : exn -> Prop) (o : outcome A) : Prop :=
  forall e, o = Raise e -> P e.

(** An outcome of the wrapper's own code: that of the array operations,
    or the [TypeError] of subscripting [None]. *)
Inductive or_type_error (A : Type) : Type :=
  | TypeError
  | Core (o : outcome A).
Arguments TypeError {A}.
Arguments Core {A} o.

(** [predict_action]: the action [self.pi[observation]] and an empty info
    dictionary.  The arguments [info] and [evaluate] are not used. *)
Definition predict_action (self : agent) (observation : Z)
  : or_type_error (Z * gmap string Z) :=
  match pi_ self with
  | None => TypeError
  | Some pi =>
      Core (let* action := getitem pi observation in Return (action, ∅))
  end.

(** The action a Python index [a] selects among [nA] actions. *)
Definition wrap_action (nA : nat) (a : Z) : Z :=
  if (a <? 0)%Z then (a + Z.of_nat nA)%Z else a.

(** ** Example MDPs *)

(** One state, one action that stays there, with reward 1 or 0. *)
Definition T_one : tensor := [ [ [1] ] ].
Definition R_one : matrix := [ [1] ].
Definition R_zero : matrix := [ [0] ].

(** Two states and two actions.  In state 0 action 0 stays with a reward
    just below [default_epsilon] and action 1 moves to state 1 with a
    reward of exactly [default_epsilon]; state 1 is absorbing and pays
    nothing. *)
Definition T_cycle : tensor :=
  [ [ [1; 0]; [0; 1] ];
    [ [0; 1]; [0; 1] ] ].
Definition R_cycle : matrix :=
  [ [99 # 10000000000; 1 # 100000000];
    [0; 0] ].

(** The example of the specification: action 0 stays with reward 0,
    action 1 moves 0 -> 1 -> 1 with reward 1 on the first move. *)
Definition T_spec : tensor :=
  [ [ [1; 0]; [0; 1] ];
    [ [0; 1]; [0; 1] ] ].
Definition R_spec : matrix :=
  [ [0; 1];
    [0; 0] ].

(** One state whose only transition has probability one half: not a
    probability distribution. *)
Definition env_half : environment :=
  {| observation_space_n := 1; action_space_n := 1;
     get_transition_matrix := [ [ [1 # 2] ] ];
     get_reward_per_action := [ [1] ] |}.

(** Two states in [R_sa] but a transition tensor for a single state. *)
Definition env_short : environment :=
  {| observation_space_n := 2; action_space_n := 1;
     get_transition_matrix := [ [ [1] ] ];
     get_reward_per_action := [ [0]; [0] ] |}.

(** Three states, as many as the policy file below does not have. *)
Definition env_three : environment :=
  {| observation_space_n := 3; action_space_n := 1;
     get_transition_matrix :=
       [ [ [1; 0; 0] ]; [ [0; 1; 0] ]; [ [0; 0; 1] ] ];
     get_reward_per_action := [ [0]; [0]; [0] ] |}.

(** A world whose [policy.npy] holds a policy for two states. *)
Definition world_two : world :=
  {| files := {[ "policy.npy"%string := NpyInt [0%Z; 1%Z] ]}; warnings := [] |}.

Definition world_empty : world := {| files := ∅; warnings := [] |}.

(** The environment of the specification's example. *)
Definition env_spec : environment :=
  {| observation_space_n := 2; action_space_n := 2;
     get_transition_matrix := T_spec;
     get_reward_per_action := R_spec |}.

(** * The numerical core in IEEE binary64 *)

(** The three numerical routines again, with a numpy [float64] as a
    binary64 float and every operation rounded as the processor rounds
    it.  Indexing, loops and outcomes are those defined above. *)
Module Binary64.
Local Open Scope float_scope.

Abbreviation tensor := (list (list (list float))).
Abbreviation matrix := (list (list float)).

(** [np.zeros(n)] and [np.zeros((n, m))]. *)
Definition np_zeros (n : nat) : list float := replicate n 0.
Definition np_zeros2 (n m : nat) : matrix := replicate n (np_zeros m).

(** [a - b] and [np.abs(a)] on arrays of one shape. *)
Definition np_sub (a b : list float) : list float := zip_with PrimFloat.sub a b.
Definition np_abs (a : list float) : list float := map PrimFloat.abs a.

(** numpy's [maximum] of two floats: a NaN on either side is the result. *)
Definition maximum (in1 in2 : float) : float :=
  if (in2 <=? in1) || is_nan in1 then in1 else in2.

(** [np.max(a)]: [maximum] reduced from the left; an empty array is an
    error. *)
Definition np_max (a : list float) : outcome float :=
  match a with
  | [] => Raise ValueError
  | x :: rest => Return (fold_left maximum rest x)
  end.

(** [np.argmax] on one row, after its first entry [mp] (not a NaN) has
    been read: an entry replaces the running maximum when it is not
    [<=] it, and the scan stops at the first NaN. *)
Fixpoint argmax_from (mp : float) (max_ind i : nat) (row : list float) : nat :=
  match row with
  | [] => max_ind
  | x :: rest =>
      if negb (x <=? mp) then
        if is_nan x then i else argmax_from x i (S i) rest
      else argmax_from mp max_ind (S i) rest
  end.

(** The index [np.argmax] returns on a non-empty row. *)
Definition first_argmax (row : list float) : nat :=
  match row with
  | [] => 0%nat
  | x :: rest => if is_nan x then 0%nat else argmax_from x 0 1 rest
  end.

Definition np_argmax (row : list float) : outcome Z :=
  match row with
  | [] => Raise ValueError
  | _ :: _ => Return (Z.of_nat (first_argmax row))
  end.

(** [np.argmax(Q, axis=1)]. *)
Fixpoint np_argmax_axis1 (Qm : matrix) : outcome (list Z) :=
  match Qm with
  | [] => Return []
  | row :: rest =>
      let* i := np_argmax row in
      let* js := np_argmax_axis1 rest in
      Return (i :: js)
  end.

(** [sum(f(i) for i in idx)]: the builtin starts from 0 and adds from the
    left, rounding after every addition. *)
Fixpoint py_sum (f : nat -> outcome float) (idx : list nat) (acc : float)
  : outcome float :=
  match idx with
  | [] => Return acc
  | i :: rest => let* x := f i in py_sum f rest (acc + x)
  end.

(** [T[s, a, s_next] * (R_sa[s, a] + gamma * V[s_next])]. *)
Definition backup_term (T : tensor) (R_sa : matrix) (gamma : float)
    (V : list float) (s a : Z) (s_next : nat) : outcome float :=
  let* Ts := getitem T s in
  let* Tsa := getitem Ts a in
  let* t := getitem Tsa (Z.of_nat s_next) in
  let* Rs := getitem R_sa s in
  let* r := getitem Rs a in
  let* v := getitem V (Z.of_nat s_next) in
  Return (t * (r + gamma * v)).

Definition backup (T : tensor) (R_sa : matrix) (gamma : float) (V : list float)
    (nS : nat) (s a : Z) : outcome float :=
  py_sum (backup_term T R_sa gamma V s a) (seq 0 nS) 0.

(** One pass of the [for s in range(nS)] loop of [policy_evaluation]. *)
Definition evaluation_sweep (pi : list Z) (T : tensor) (R_sa : matrix)
    (gamma : float) (nS : nat) (V : list float) : outcome (list float) :=
  for_range (seq 0 nS)
    (fun s V_new =>
       let* a := getitem pi (Z.of_nat s) in
       let* x := backup T R_sa gamma V nS (Z.of_nat s) a in
       setitem V_new s x)
    (np_zeros nS).

(** The [while True] loop of [policy_evaluation]. *)
Fixpoint evaluation_loop (fuel : nat) (pi : list Z) (T : tensor) (R_sa : matrix)
    (gamma epsilon : float) (nS : nat) (V : list float) : outcome (list float) :=
  match fuel with
  | O => OutOfFuel
  | S fuel' =>
      let* V_new := evaluation_sweep pi T R_sa gamma nS V in
      let* d := np_max (np_abs (np_sub V_new V)) in
      if d <? epsilon then Return V
      else evaluation_loop fuel' pi T R_sa gamma epsilon nS V_new
  end.

Definition policy_evaluation (fuel : nat) (pi : list Z) (T : tensor)
    (R_sa : matrix) (gamma epsilon : float) : outcome (list float) :=
  let nS := length R_sa in
  let V := np_zeros nS in
  evaluation_loop fuel pi T R_sa gamma epsilon nS V.

(** The doubly nested loop of [policy_improvement] filling [Q]. *)
Definition fill_Q (V : list float) (T : tensor) (R_sa : matrix) (gamma : float)
    (nS nA : nat) (Q0 : matrix) : outcome matrix :=
  for_range (seq 0 nS)
    (fun s Qm =>
       for_range (seq 0 nA)
         (fun a Qm' =>
            let* x := backup T R_sa gamma V nS (Z.of_nat s) (Z.of_nat a) in
            setitem2 Qm' s a x)
         Qm)
    Q0.

Definition policy_improvement (V : list float) (T : tensor) (R_sa : matrix)
    (gamma : float) : outcome (matrix * list Z) :=
  let '(nS, nA) := shape2 R_sa in
  let Q0 := np_zeros2 nS nA in
  let* Qm := fill_Q V T R_sa gamma nS nA Q0 in
  let* pi_new := np_argmax_axis1 Qm in
  Return (Qm, pi_new).

(** The default [epsilon = 1e-8]: the binary64 number nearest to it. *)
Definition default_epsilon : float := 0x1.5798ee2308c3ap-27.

(** *** The data model of the specification, in binary64 *)

(** A probability distribution: entries at least 0 that add up to 1. *)
Definition row_stochastic (row : list float) : bool :=
  forallb (fun t => 0 <=? t) row && (fold_left PrimFloat.add row 0 =? 1).

(** A valid MDP: at least one state and one action, [R_sa] of shape
    [(nS, nA)] with finite entries, [T] of shape [(nS, nA, nS)] with every
    [T[s, a, :]] a probability distribution. *)
Definition valid_mdp (T : tensor) (R_sa : matrix) : bool :=
  let '(nS, nA) := shape2 R_sa in
  (0 <? nS)%nat && (0 <? nA)%nat && has_shape2 nS nA R_sa
  && has_shape3 nS nA nS T && forallb (forallb row_stochastic) T
  && forallb (forallb is_finite) R_sa.

(** The number of actions of an MDP, [R_sa.shape[1]]. *)
Definition num_actions (R_sa : matrix) : nat := snd (shape2 R_sa).

(** Array entries as total functions. *)
Definition T_at (T : tensor) (s a s_next : nat) : float :=
  nth s_next (nth a (nth s T []) []) 0.
Definition R_at (R_sa : matrix) (s a : nat) : float := nth a (nth s R_sa []) 0.
Definition V_at (V : list float) (s : nat) : float := nth s V 0.

(** [sum_{s'} T[s,a,s'] * (R_sa[s,a] + gamma * V[s'])] as the code
    computes it: every product and sum rounded, the terms added to 0 in
    the order [s' = 0, 1, ...]. *)
Definition bellman_rhs (T : tensor) (R_sa : matrix) (gamma : float)
    (V : list float) (nS s a : nat) : float :=
  fold_left
    (fun acc s_next =>
       acc + T_at T s a s_next * (R_at R_sa s a + gamma * V_at V s_next))
    (seq 0 nS) 0.

(** The synchronous update of every state under the policy [pi]. *)
Definition bellman_operator (pi : list Z) (T : tensor) (R_sa : matrix)
    (gamma : float) (nS : nat) (V : list float) : list float :=
  map (fun s => bellman_rhs T R_sa gamma V nS s (pi_at pi s)) (seq 0 nS).

(** The stopping test of [policy_evaluation] at [V]: one more update
    moves every state by less than [epsilon]. *)
Definition within_tolerance (pi : list Z) (T : tensor) (R_sa : matrix)
    (gamma epsilon : float) (V : list float) : Prop :=
  forall s, (s < length R_sa)%nat ->
    (abs (V_at (bellman_operator pi T R_sa gamma (length R_sa) V) s - V_at V s)
     <? epsilon) = true.

(** What [np.argmax] returns on a row: the index of the first NaN when
    there is one, and otherwise the lowest index of the maximum. *)
Definition argmax_result (row : list float) (r : nat) : Prop :=
  (r < length row)%nat
  /\ ((is_nan (nth r row 0) = true
       /\ forall j, (j < r)%nat -> is_nan (nth j row 0) = false)
      \/ ((forall j, (j < length row)%nat -> (nth j row 0 <=? nth r row 0) = true)
          /\ forall j, (j < r)%nat -> (nth j row 0 <? nth r row 0) = true)).

(** [advance k V]: the array bound to [V] after [k] further passes of
    the [while] loop, when none of them passes the stopping test. *)
Fixpoint advance (k : nat) (pi : list Z) (T : tensor) (R_sa : matrix)
    (gamma epsilon : float) (nS : nat) (V : list float) : option (list float) :=
  match k with
  | O => Some V
  | S k' =>
      match evaluation_sweep pi T R_sa gamma nS V with
      | Return V_new =>
          match np_max (np_abs (np_sub V_new V)) with
          | Return d =>
              if d <? epsilon then None
              else advance k' pi T R_sa gamma epsilon nS V_new
          | _ => None
          end
      | _ => None
      end
  end.

End Binary64.

(** ** Example MDPs in binary64 *)

(** Two states and one action that moves to the other state, with
    rewards [1e9] and [-1e9], or [1] and [-1], or none. *)
Definition T_swap : Binary64.tensor := [ [ [0; 1] ]; [ [1; 0] ] ]%float.
Definition R_swap : Binary64.matrix := [ [1e9]; [-1e9] ]%float.
Definition R_unit : Binary64.matrix := [ [1]; [-1] ]%float.
Definition R_none : Binary64.matrix := [ [0]; [0] ]%float.

(** One state and two actions that stay there, with rewards 0 and 1;
    the same arrays over the rationals. *)
Definition T_stay : Binary64.tensor := [ [ [1]; [1] ] ]%float.
Definition R_stay : Binary64.matrix := [ [0; 1] ]%float.
Definition T_stay_exact : tensor := [ [ [1]; [1] ] ].
Definition R_stay_exact : matrix := [ [0; 1] ].

(** Two states and two actions, none of which leaves its state; action 1
    in state 0 pays the largest binary64 number. *)
Definition T_rest : Binary64.tensor :=
  [ [ [1; 0]; [1; 0] ];
    [ [0; 1]; [0; 1] ] ]%float.
Definition R_huge : Binary64.matrix :=
  [ [0; 0x1.fffffffffffffp+1023];
    [0; 0] ]%float.
(** * Properties *)

(** ** Outcomes and primitives *)

Lemma Qltb_lt (x y : Q) : Qltb x y = true <-> x < y.
Proof. unfold Qltb, Qlt. apply Z.ltb_lt. Qed.

Lemma Qltb_ge (x y : Q) : Qltb x y = false <-> y <= x.
Proof. unfold Qltb, Qle. apply Z.ltb_ge. Qed.

Lemma getitem_nat {A : Type} (a : list A) (i : nat) (x : A) :
  a !! i = Some x -> getitem a (Z.of_nat i) = Return x.
Proof.
  intros H. unfold getitem.
  destruct (Z.ltb_spec (Z.of_nat i) 0) as [Hlt|_]; [lia|].
  destruct (Z.ltb_spec (Z.of_nat i) 0) as [Hlt|_]; [lia|].
  rewrite Nat2Z.id, H. reflexivity.
Qed.

Lemma getitem_nth {A : Type} (d : A) (a : list A) (i : nat) :
  (i < length a)%nat -> getitem a (Z.of_nat i) = Return (nth i a d).
Proof.
  intros H. apply getitem_nat.
  destruct (lookup_lt_is_Some_2 a i H) as [x Hx].
  rewrite Hx. f_equal. symmetry. apply nth_lookup_Some with (d := d) in Hx.
  exact Hx.
Qed.

Lemma py_sum_app (f : nat -> outcome Q) (l1 l2 : list nat) (acc : Q) :
  py_sum f (l1 ++ l2) acc = let* x := py_sum f l1 acc in py_sum f l2 x.
Proof.
  revert acc. induction l1 as [|i l1 IH]; intros acc; simpl; [reflexivity|].
  destruct (f i); simpl; auto.
Qed.

Lemma py_sum_Qsum (f : nat -> outcome Q) (g : nat -> Q) (n : nat) :
  (forall i, (i < n)%nat -> f i = Return (g i)) ->
  py_sum f (seq 0 n) 0 = Return (Qsum g n).
Proof.
  induction n as [|n IH]; intros H; [reflexivity|].
  rewrite seq_S, py_sum_app, IH by (intros; apply H; lia).
  simpl. rewrite H by lia. reflexivity.
Qed.

Lemma for_range_app {St : Type} (l1 l2 : list nat)
    (body : nat -> St -> outcome St) (st : St) :
  for_range (l1 ++ l2) body st
  = let* st' := for_range l1 body st in for_range l2 body st'.
Proof.
  revert st. induction l1 as [|i l1 IH]; intros st; simpl; [reflexivity|].
  destruct (body i st); simpl; auto.
Qed.

Lemma for_range_setitem {A : Type} (n : nat)
    (body : nat -> list A -> outcome (list A)) (g : nat -> A) (init : list A) :
  (forall s st, (s < n)%nat -> body s st = setitem st s (g s)) ->
  length init = n ->
  for_range (seq 0 n) body init = Return (map g (seq 0 n)).
Proof.
  intros Hbody Hlen.
  assert (Hk : forall k, (k <= n)%nat ->
            for_range (seq 0 k) body init
            = Return (map g (seq 0 k) ++ drop k init)).
  { induction k as [|k IH]; intros Hle.
    - simpl. rewrite drop_0. reflexivity.
    - rewrite seq_S, for_range_app, IH by lia. simpl.
      rewrite Hbody by lia. unfold setitem.
      assert (Hlt : (k < length init)%nat) by lia.
      destruct (lookup_lt_is_Some_2 init k Hlt) as [x Hx].
      rewrite (drop_S _ _ _ Hx).
      assert (Hlm : length (map g (seq 0 k)) = k)
        by (rewrite length_map, length_seq; reflexivity).
      destruct (Nat.ltb_spec k (length (map g (seq 0 k) ++ x :: drop (S k) init)))
        as [_|Hge]; [|rewrite length_app, Hlm in Hge; simpl in Hge; lia].
      rewrite insert_app_r_alt by lia. rewrite Hlm, Nat.sub_diag. simpl.
      rewrite map_app. simpl. rewrite <- app_assoc. reflexivity. }
  rewrite Hk by lia. rewrite drop_ge by lia. rewrite app_nil_r. reflexivity.
Qed.

(** ** Shapes *)

Lemma has_shape1_length {A : Type} (n : nat) (a : list A) :
  has_shape1 n a = true -> length a = n.
Proof. unfold has_shape1. apply Nat.eqb_eq. Qed.

Lemma forallb_nth {A : Type} (p : A -> bool) (d : A) (a : list A) (i : nat) :
  forallb p a = true -> (i < length a)%nat -> p (nth i a d) = true.
Proof.
  intros H Hi. rewrite forallb_forall in H. apply H.
  apply nth_In. exact Hi.
Qed.

Lemma has_shape2_rows {A : Type} (n m : nat) (a : list (list A)) :
  has_shape2 n m a = true ->
  length a = n /\ forall i, (i < n)%nat -> length (nth i a []) = m.
Proof.
  unfold has_shape2. intros H. apply andb_prop in H as [Hn Hr].
  apply Nat.eqb_eq in Hn. split; [exact Hn|].
  intros i Hi. apply has_shape1_length.
  apply forallb_nth; [exact Hr | lia].
Qed.

Lemma has_shape3_rows {A : Type} (n m k : nat) (a : list (list (list A))) :
  has_shape3 n m k a = true ->
  length a = n
  /\ forall i, (i < n)%nat ->
       length (nth i a []) = m
       /\ forall j, (j < m)%nat -> length (nth j (nth i a []) []) = k.
Proof.
  unfold has_shape3. intros H. apply andb_prop in H as [Hn Hr].
  apply Nat.eqb_eq in Hn. split; [exact Hn|].
  intros i Hi. apply has_shape2_rows.
  apply forallb_nth; [exact Hr | lia].
Qed.

(** On arrays of the right shapes the sum of the source is the
    right-hand side of the Bellman equation. *)
Lemma backup_shapes (T : tensor) (R_sa : matrix) (gamma : Q) (V : list Q)
    (nS nA s a : nat) :
  has_shape2 nS nA R_sa = true -> has_shape3 nS nA nS T = true ->
  length V = nS -> (s < nS)%nat -> (a < nA)%nat ->
  backup T R_sa gamma V nS (Z.of_nat s) (Z.of_nat a)
  = Return (bellman_rhs T R_sa gamma V nS s a).
Proof.
  intros HR HT HV Hs Ha.
  apply has_shape2_rows in HR as [HRn HRr].
  apply has_shape3_rows in HT as [HTn HTr].
  destruct (HTr s Hs) as [HTs HTsa].
  unfold backup, bellman_rhs. apply py_sum_Qsum. intros i Hi.
  unfold backup_term, T_at, R_at, V_at.
  rewrite (getitem_nth [] T) by lia. simpl.
  rewrite (getitem_nth [] (nth s T [])) by lia. simpl.
  rewrite (getitem_nth 0 (nth a (nth s T []) [])) by (rewrite HTsa; lia). simpl.
  rewrite (getitem_nth [] R_sa) by lia. simpl.
  rewrite (getitem_nth 0 (nth s R_sa [])) by (rewrite HRr; lia). simpl.
  rewrite (getitem_nth 0 V) by lia. simpl.
  reflexivity.
Qed.

Lemma valid_policy_at (nS nA : nat) (pi : list Z) (s : nat) :
  valid_policy nS nA pi = true -> (s < nS)%nat ->
  length pi = nS /\ (pi_at pi s < nA)%nat
  /\ getitem pi (Z.of_nat s) = Return (Z.of_nat (pi_at pi s)).
Proof.
  unfold valid_policy. intros H Hs. apply andb_prop in H as [Hn Hr].
  apply Nat.eqb_eq in Hn.
  pose proof (forallb_nth _ 0%Z pi s Hr ltac:(lia)) as Ha. simpl in Ha.
  apply andb_prop in Ha as [H0 H1].
  apply Z.leb_le in H0. apply Z.ltb_lt in H1.
  unfold pi_at. split; [exact Hn|]. split; [lia|].
  rewrite Z2Nat.id by lia. rewrite <- (Nat2Z.id s) at 2.
  rewrite Nat2Z.id. apply getitem_nth. lia.
Qed.

(** The loop over the states computes the synchronous update. *)
Lemma evaluation_sweep_shapes (pi : list Z) (T : tensor) (R_sa : matrix)
    (gamma : Q) (nS nA : nat) (V : list Q) :
  has_shape2 nS nA R_sa = true -> has_shape3 nS nA nS T = true ->
  valid_policy nS nA pi = true -> length V = nS ->
  evaluation_sweep pi T R_sa gamma nS V
  = Return (bellman_operator pi T R_sa gamma nS V).
Proof.
  intros HR HT Hpi HV. unfold evaluation_sweep, bellman_operator.
  apply for_range_setitem.
  - intros s st Hs.
    destruct (valid_policy_at nS nA pi s Hpi Hs) as (_ & Ha & Hg).
    rewrite Hg. simpl.
    rewrite (backup_shapes T R_sa gamma V nS nA) by assumption.
    reflexivity.
  - apply length_replicate.
Qed.

(** ** The maximum change between two value functions *)

Lemma fold_Qmax_lt (l : list Q) (x c : Q) :
  fold_left Qmax l x < c <-> x < c /\ Forall (fun y => y < c) l.
Proof.
  revert x. induction l as [|y l IH]; intros x; simpl.
  - split; [intros H; split; [exact H | constructor] | intros [H _]; exact H].
  - rewrite IH, Q.max_lub_lt_iff, Forall_cons. tauto.
Qed.

Lemma fold_Qmax_le (l : list Q) (x c : Q) :
  fold_left Qmax l x <= c <-> x <= c /\ Forall (fun y => y <= c) l.
Proof.
  revert x. induction l as [|y l IH]; intros x; simpl.
  - split; [intros H; split; [exact H | constructor] | intros [H _]; exact H].
  - rewrite IH, Q.max_lub_iff, Forall_cons. tauto.
Qed.

Lemma nth_abs_sub (V W : list Q) (s : nat) :
  (s < length V)%nat -> (s < length W)%nat ->
  nth s (np_abs (np_sub V W)) 0 = Qabs (V_at V s - V_at W s).
Proof.
  unfold V_at. revert W s. induction V as [|v V IH]; intros [|w W] [|s]; simpl;
    intros H1 H2; try lia; [reflexivity|].
  apply IH; lia.
Qed.

Lemma length_abs_sub (V W : list Q) :
  length V = length W -> length (np_abs (np_sub V W)) = length V.
Proof.
  intros H. unfold np_abs, np_sub. rewrite length_map.
  rewrite length_zip_with. lia.
Qed.

(** [np.max(np.abs(V_new - V))] exists for a non-empty state space and
    is below a bound exactly when every state's change is. *)
Lemma np_max_change (n : nat) (V W : list Q) :
  (0 < n)%nat -> length V = n -> length W = n ->
  exists d, np_max (np_abs (np_sub V W)) = Return d
    /\ (forall c, d < c <->
          forall s, (s < n)%nat -> Qabs (V_at V s - V_at W s) < c)
    /\ (forall c, d <= c <->
          forall s, (s < n)%nat -> Qabs (V_at V s - V_at W s) <= c).
Proof.
  intros Hn HV HW.
  pose proof (length_abs_sub V W ltac:(lia)) as HL.
  pose proof (fun s => nth_abs_sub V W s) as Hnth.
  destruct (np_abs (np_sub V W)) as [|x l] eqn:E; [simpl in HL; lia|].
  exists (fold_left Qmax l x). split; [reflexivity|].
  split; intros c.
  - rewrite fold_Qmax_lt, <- (Forall_cons (fun y => y < c)).
    rewrite (Forall_nth _ 0). rewrite HL, HV.
    split; intros H s Hs; specialize (H s Hs).
    + rewrite Hnth in H by lia. exact H.
    + rewrite Hnth by lia. exact H.
  - rewrite fold_Qmax_le, <- (Forall_cons (fun y => y <= c)).
    rewrite (Forall_nth _ 0). rewrite HL, HV.
    split; intros H s Hs; specialize (H s Hs).
    + rewrite Hnth in H by lia. exact H.
    + rewrite Hnth by lia. exact H.
Qed.

(** ** Sums *)

Lemma fold_Qplus_Qsum (row : list Q) :
  fold_left Qplus row 0 = Qsum (fun i => nth i row 0) (length row).
Proof.
  induction row as [|x row IH] using rev_ind; [reflexivity|].
  rewrite fold_left_app, length_app. simpl.
  rewrite Nat.add_1_r. simpl.
  rewrite app_nth2 by lia. rewrite Nat.sub_diag. simpl.
  rewrite IH. f_equal.
  assert (H : forall n, (n <= length row)%nat ->
            Qsum (fun i => nth i row 0) n = Qsum (fun i => nth i (row ++ [x]) 0) n).
  { induction n as [|n IHn]; intros Hle; [reflexivity|].
    simpl. rewrite IHn by lia. rewrite (app_nth1 row [x]) by lia. reflexivity. }
  apply H. lia.
Qed.

Lemma Qsum_nonneg (p : nat -> Q) (n : nat) :
  (forall i, (i < n)%nat -> 0 <= p i) -> 0 <= Qsum p n.
Proof.
  induction n as [|n IH]; intros H; simpl; [lra|].
  pose proof (IH ltac:(intros; apply H; lia)).
  pose proof (H n ltac:(lia)). lra.
Qed.

(** Two expected backups through one distribution differ by at most
    [gamma] times the largest difference of the two value functions. *)
Lemma Qsum_backup_diff (p v w : nat -> Q) (r gamma c : Q) (n : nat) :
  (forall i, (i < n)%nat -> 0 <= p i) -> 0 <= gamma ->
  (forall i, (i < n)%nat -> Qabs (v i - w i) <= c) ->
  Qabs (Qsum (fun i => p i * (r + gamma * v i)) n
        - Qsum (fun i => p i * (r + gamma * w i)) n)
  <= gamma * c * Qsum p n.
Proof.
  intros Hp Hg Hc. induction n as [|n IH]; cbn [Qsum].
  - apply (proj2 (Qabs_Qle_condition _ _)). split; lra.
  - specialize (IH ltac:(intros; apply Hp; lia) ltac:(intros; apply Hc; lia)).
    pose proof (Hp n ltac:(lia)) as Hpn.
    pose proof (Hc n ltac:(lia)) as Hcn.
    apply (proj1 (Qabs_Qle_condition _ _)) in IH.
    apply (proj1 (Qabs_Qle_condition _ _)) in Hcn.
    apply (proj2 (Qabs_Qle_condition _ _)).
    assert (Hpg : 0 <= p n * gamma) by (apply Qmult_le_0_compat; assumption).
    assert (H1 : (v n - w n) * (p n * gamma) <= c * (p n * gamma))
      by (apply Qmult_le_compat_r; [tauto | exact Hpg]).
    assert (H2 : (- c) * (p n * gamma) <= (v n - w n) * (p n * gamma))
      by (apply Qmult_le_compat_r; [tauto | exact Hpg]).
    split; lra.
Qed.

(** ** The Bellman operator of a fixed policy *)

Lemma valid_mdp_inv (T : tensor) (R_sa : matrix) :
  valid_mdp T R_sa = true ->
  (0 < length R_sa)%nat /\ (0 < num_actions R_sa)%nat
  /\ has_shape2 (length R_sa) (num_actions R_sa) R_sa = true
  /\ has_shape3 (length R_sa) (num_actions R_sa) (length R_sa) T = true
  /\ forall s a, (s < length R_sa)%nat -> (a < num_actions R_sa)%nat ->
       (forall s', (s' < length R_sa)%nat -> 0 <= T_at T s a s')
       /\ Qsum (T_at T s a) (length R_sa) == 1.
Proof.
  unfold valid_mdp, num_actions. destruct (shape2 R_sa) as [nS nA] eqn:E.
  assert (HnS : nS = length R_sa) by (unfold shape2 in E; congruence).
  subst nS. simpl. intros H.
  apply andb_prop in H as [H Hst]. apply andb_prop in H as [H HT].
  apply andb_prop in H as [H HR]. apply andb_prop in H as [HnS HnA].
  apply Nat.ltb_lt in HnS. apply Nat.ltb_lt in HnA.
  repeat (split; [assumption|]).
  intros s a Hs Ha.
  destruct (has_shape3_rows _ _ _ _ HT) as [HTn HTr].
  destruct (HTr s Hs) as [HTs HTsa].
  assert (Hrow : row_stochastic (nth a (nth s T []) []) = true).
  { apply forallb_nth; [|lia]. apply (forallb_nth _ [] T s); [assumption | lia]. }
  unfold row_stochastic in Hrow. apply andb_prop in Hrow as [Hpos Hsum].
  split.
  - intros s' Hs'. unfold T_at. apply Qle_bool_iff.
    apply forallb_nth; [assumption | rewrite HTsa; lia].
  - apply Qeq_bool_iff in Hsum. rewrite fold_Qplus_Qsum, HTsa in Hsum by lia.
    exact Hsum.
Qed.

Lemma bellman_operator_length pi T R_sa gamma nS V :
  length (bellman_operator pi T R_sa gamma nS V) = nS.
Proof. unfold bellman_operator. rewrite length_map, length_seq. reflexivity. Qed.

Lemma bellman_operator_at pi T R_sa gamma nS V s :
  (s < nS)%nat ->
  V_at (bellman_operator pi T R_sa gamma nS V) s
  = bellman_rhs T R_sa gamma V nS s (pi_at pi s).
Proof.
  intros Hs. unfold V_at, bellman_operator.
  rewrite (nth_indep _ 0 (bellman_rhs T R_sa gamma V nS 0%nat (pi_at pi 0)))
    by (rewrite length_map, length_seq; exact Hs).
  rewrite (map_nth (fun s => bellman_rhs T R_sa gamma V nS s (pi_at pi s))).
  rewrite seq_nth by exact Hs. reflexivity.
Qed.

(** The update for a fixed policy is a contraction of modulus [gamma]
    in the maximum norm. *)
Lemma bellman_operator_contract (pi : list Z) (T : tensor) (R_sa : matrix)
    (gamma c : Q) (V W : list Q) :
  valid_mdp T R_sa = true ->
  valid_policy (length R_sa) (num_actions R_sa) pi = true ->
  0 <= gamma ->
  (forall s, (s < length R_sa)%nat -> Qabs (V_at V s - V_at W s) <= c) ->
  forall s, (s < length R_sa)%nat ->
    Qabs (V_at (bellman_operator pi T R_sa gamma (length R_sa) V) s
          - V_at (bellman_operator pi T R_sa gamma (length R_sa) W) s)
    <= gamma * c.
Proof.
  intros Hmdp Hpi Hg Hc s Hs.
  destruct (valid_mdp_inv T R_sa Hmdp) as (HnS & HnA & HR & HT & Hst).
  destruct (valid_policy_at _ _ pi s Hpi Hs) as (_ & Ha & _).
  destruct (Hst s (pi_at pi s) Hs Ha) as [Hpos Hsum].
  rewrite !bellman_operator_at by exact Hs. unfold bellman_rhs.
  eapply Qle_trans; [apply Qsum_backup_diff; eassumption|].
  rewrite Hsum. lra.
Qed.

(** ** Geometric decay *)

Lemma geometric_nonneg (g : Q) (k : nat) : 0 <= g -> 0 <= geometric g k.
Proof.
  intros Hg. induction k as [|k IH]; simpl; [lra|].
  apply Qmult_le_0_compat; assumption.
Qed.

(** Bernoulli's inequality, read for [g = 1 - d]. *)
Lemma geometric_bernoulli (g : Q) (k : nat) :
  0 <= g -> g < 1 ->
  geometric g k * (1 + inject_Z (Z.of_nat k) * (1 - g)) <= 1.
Proof.
  intros Hg0 Hg1. induction k as [|k IH].
  - cbn [geometric]. change (inject_Z (Z.of_nat 0)) with 0. lra.
  - cbn [geometric]. rewrite Nat2Z.inj_succ. unfold Z.succ. rewrite inject_Z_plus.
    set (n := inject_Z (Z.of_nat k)) in *.
    assert (Hn : 0 <= n).
    { unfold n. replace 0 with (inject_Z 0) by reflexivity.
      rewrite <- Zle_Qle. lia. }
    pose proof (geometric_nonneg g k Hg0) as Hx.
    set (x := geometric g k) in *.
    assert (H1 : g * (1 + (n + inject_Z 1) * (1 - g)) <= 1 + n * (1 - g)).
    { assert (Hsq : 0 <= (n + 1) * ((1 - g) * (1 - g))).
      { apply Qmult_le_0_compat; [lra|]. apply Qmult_le_0_compat; lra. }
      change (inject_Z 1) with 1. lra. }
    assert (H2 : x * (g * (1 + (n + inject_Z 1) * (1 - g)))
                 <= x * (1 + n * (1 - g))).
    { rewrite (Qmult_comm x), (Qmult_comm x (1 + n * (1 - g))).
      apply Qmult_le_compat_r; assumption. }
    lra.
Qed.

(** A geometric sequence of ratio below 1 falls below every positive bound. *)
Lemma geometric_small (g c eps : Q) :
  0 <= g -> g < 1 -> 0 < eps -> exists k, geometric g k * c < eps.
Proof.
  intros Hg0 Hg1 Heps.
  destruct (Qlt_le_dec 0 c) as [Hc|Hc].
  2:{ exists 0%nat. simpl. lra. }
  destruct (Qarchimedean (2 * c / (eps * (1 - g)))) as [p Hp].
  exists (Pos.to_nat p).
  pose proof (geometric_bernoulli g (Pos.to_nat p) Hg0 Hg1) as Hb.
  pose proof (geometric_nonneg g (Pos.to_nat p) Hg0) as Hx.
  rewrite positive_nat_Z in Hb.
  change (Z.pos p # 1) with (inject_Z (Z.pos p)) in Hp.
  set (n := inject_Z (Z.pos p)) in *.
  set (x := geometric g (Pos.to_nat p)) in *.
  assert (Hd : 0 < eps * (1 - g)) by (apply Qmult_lt_0_compat; lra).
  assert (Hc2 : 2 * c < n * (eps * (1 - g))).
  { apply (proj2 (Qmult_lt_r _ _ _ Hd)) in Hp.
    rewrite (Qmult_comm (_ / _)), Qmult_div_r in Hp by lra. exact Hp. }
  assert (H1 : x * c <= x * ((eps * (1 # 2)) * (1 + n * (1 - g)))).
  { rewrite (Qmult_comm x), (Qmult_comm x (_ * _)).
    apply Qmult_le_compat_r; [|exact Hx]. lra. }
  assert (H2 : (x * (1 + n * (1 - g))) * (eps * (1 # 2)) <= 1 * (eps * (1 # 2))).
  { apply Qmult_le_compat_r; [exact Hb | lra]. }
  lra.
Qed.
(** ** Policy evaluation over the rationals *)

Section Evaluation.
Variables (pi : list Z) (T : tensor) (R_sa : matrix) (gamma epsilon : Q).
Hypothesis Hmdp : valid_mdp T R_sa = true.
Hypothesis Hpi : valid_policy (length R_sa) (num_actions R_sa) pi = true.

Let nS := length R_sa.
Let B := bellman_operator pi T R_sa gamma nS.

Lemma iter_B_length (k : nat) (V : list Q) :
  length V = nS -> length (Nat.iter k B V) = nS.
Proof.
  intros HV. destruct k as [|k]; [exact HV|].
  simpl. apply bellman_operator_length.
Qed.

(** One pass of the loop body: the update and the stopping test. *)
Lemma evaluation_loop_step (fuel : nat) (V : list Q) :
  length V = nS ->
  exists d,
    np_max (np_abs (np_sub (B V) V)) = Return d
    /\ (d < epsilon <-> within_tolerance pi T R_sa gamma epsilon V)
    /\ (forall c, d <= c <->
          forall s, (s < nS)%nat -> Qabs (V_at (B V) s - V_at V s) <= c)
    /\ evaluation_loop (S fuel) pi T R_sa gamma epsilon nS V
       = if Qltb d epsilon then Return V
         else evaluation_loop fuel pi T R_sa gamma epsilon nS (B V).
Proof.
  intros HV.
  destruct (valid_mdp_inv T R_sa Hmdp) as (HnS & HnA & HR & HT & Hst).
  destruct (np_max_change nS (B V) V HnS) as (d & Hd & Hlt & Hle);
    [apply bellman_operator_length | exact HV |].
  exists d. split; [exact Hd|]. split; [apply Hlt|]. split; [exact Hle|].
  cbn [evaluation_loop].
  rewrite (evaluation_sweep_shapes pi T R_sa gamma nS (num_actions R_sa))
    by assumption.
  cbn [bind]. fold B. rewrite Hd. reflexivity.
Qed.

Lemma evaluation_loop_converges (k : nat) :
  0 <= gamma ->
  forall (V : list Q) (c : Q),
    length V = nS ->
    (forall s, (s < nS)%nat -> Qabs (V_at (B V) s - V_at V s) <= c) ->
    geometric gamma k * c < epsilon ->
    exists j,
      (j <= k)%nat
      /\ (forall fuel, (j < fuel)%nat ->
            evaluation_loop fuel pi T R_sa gamma epsilon nS V
            = Return (Nat.iter j B V))
      /\ within_tolerance pi T R_sa gamma epsilon (Nat.iter j B V)
      /\ (forall i, (i < j)%nat ->
            ~ within_tolerance pi T R_sa gamma epsilon (Nat.iter i B V)).
Proof.
  intros Hg. induction k as [|k IH]; intros V c HV Hc Hsmall.
  - exists 0%nat. cbn [geometric] in Hsmall.
    destruct (evaluation_loop_step 0 V HV) as (d & Hd & Hlt & Hle & _).
    assert (Hdc : d <= c) by (apply Hle; exact Hc).
    assert (Hde : d < epsilon) by lra.
    split; [lia|]. split; [|split; [apply Hlt; exact Hde | intros; lia]].
    intros [|fuel] Hf; [lia|].
    destruct (evaluation_loop_step fuel V HV) as (d' & Hd' & _ & _ & Hloop).
    rewrite Hloop. assert (d' = d) by congruence. subst d'.
    apply Qltb_lt in Hde. rewrite Hde. reflexivity.
  - destruct (evaluation_loop_step 0 V HV) as (d & Hd & Hlt & Hle & _).
    destruct (Qltb d epsilon) eqn:Htest.
    + exists 0%nat. apply Qltb_lt in Htest.
      split; [lia|]. split; [|split; [apply Hlt; exact Htest | intros; lia]].
      intros [|fuel] Hf; [lia|].
      destruct (evaluation_loop_step fuel V HV) as (d' & Hd' & _ & _ & Hloop).
      rewrite Hloop. assert (d' = d) by congruence. subst d'.
      apply Qltb_lt in Htest. rewrite Htest. reflexivity.
    + destruct (IH (B V) (gamma * c)) as (j & Hj & Hrun & Htol & Hnot).
      * apply bellman_operator_length.
      * intros s Hs. apply bellman_operator_contract; assumption.
      * cbn [geometric] in Hsmall.
        assert (E : geometric gamma k * (gamma * c)
                    == gamma * geometric gamma k * c) by ring.
        rewrite E. exact Hsmall.
      * exists (S j). rewrite !Nat.iter_succ_r.
        split; [lia|]. split; [|split; [exact Htol|]].
        -- intros [|fuel] Hf; [lia|].
           destruct (evaluation_loop_step fuel V HV)
             as (d' & Hd' & _ & _ & Hloop).
           rewrite Hloop. assert (d' = d) by congruence. subst d'.
           rewrite Htest. apply Hrun. lia.
        -- intros [|i] Hi.
           ++ simpl. intros Hw. apply Hlt in Hw. apply Qltb_lt in Hw. congruence.
           ++ rewrite Nat.iter_succ_r. apply Hnot. lia.
Qed.
End Evaluation.
Lemma evaluation_loop_mono (pi : list Z) (T : tensor) (R_sa : matrix)
    (gamma epsilon : Q) (nS : nat) (fuel fuel' : nat) (V W : list Q) :
  evaluation_loop fuel pi T R_sa gamma epsilon nS V = Return W ->
  (fuel <= fuel')%nat ->
  evaluation_loop fuel' pi T R_sa gamma epsilon nS V = Return W.
Proof.
  revert fuel' V. induction fuel as [|fuel IH]; intros fuel' V H Hle;
    [discriminate|].
  destruct fuel' as [|fuel']; [lia|].
  cbn [evaluation_loop] in *.
  destruct (evaluation_sweep pi T R_sa gamma nS V) as [V_new| |];
    cbn [bind] in *; try discriminate.
  destruct (np_max (np_abs (np_sub V_new V))) as [d| |];
    cbn [bind] in *; try discriminate.
  destruct (Qltb d epsilon); [exact H|].
  apply IH; [exact H | lia].
Qed.

Lemma policy_evaluation_mono (pi : list Z) (T : tensor) (R_sa : matrix)
    (gamma epsilon : Q) (fuel fuel' : nat) (V : list Q) :
  policy_evaluation fuel pi T R_sa gamma epsilon = Return V ->
  (fuel <= fuel')%nat ->
  policy_evaluation fuel' pi T R_sa gamma epsilon = Return V.
Proof. unfold policy_evaluation. apply evaluation_loop_mono. Qed.

Lemma policy_evaluation_functional (pi : list Z) (T : tensor) (R_sa : matrix)
    (gamma epsilon : Q) (fuel fuel' : nat) (V V' : list Q) :
  policy_evaluation fuel pi T R_sa gamma epsilon = Return V ->
  policy_evaluation fuel' pi T R_sa gamma epsilon = Return V' ->
  V = V'.
Proof.
  intros H H'.
  apply policy_evaluation_mono with (fuel' := Nat.max fuel fuel') in H; [|lia].
  apply policy_evaluation_mono with (fuel' := Nat.max fuel fuel') in H'; [|lia].
  congruence.
Qed.

(** What a returned value function is: the array the stopping test was
    taken at, while the update that passed the test is dropped. *)
Lemma evaluation_loop_returns (pi : list Z) (T : tensor) (R_sa : matrix)
    (gamma epsilon : Q) (nS : nat) (fuel : nat) (V0 V : list Q) :
  evaluation_loop fuel pi T R_sa gamma epsilon nS V0 = Return V ->
  exists V_new d,
    evaluation_sweep pi T R_sa gamma nS V = Return V_new
    /\ np_max (np_abs (np_sub V_new V)) = Return d
    /\ d < epsilon.
Proof.
  revert V0. induction fuel as [|fuel IH]; intros V0 H; [discriminate|].
  cbn [evaluation_loop] in H.
  destruct (evaluation_sweep pi T R_sa gamma nS V0) as [V_new| |] eqn:Hs;
    cbn [bind] in H; try discriminate.
  destruct (np_max (np_abs (np_sub V_new V0))) as [d| |] eqn:Hd;
    cbn [bind] in H; try discriminate.
  destruct (Qltb d epsilon) eqn:Ht.
  - injection H as <-. exists V_new, d. apply Qltb_lt in Ht. auto.
  - apply IH in H. exact H.
Qed.

(** C10.  The loop of [policy_evaluation] returns the array [V] it
    took the stopping test at, not the update [V_new] that passed the
    test: whenever the function returns [V], one more update of [V]
    moves every state by less than [epsilon].  In particular, when the
    first update of the zero vector already does, the function returns
    the zero vector. *)
Theorem policy_evaluation_returns_old_V (pi : list Z) (T : tensor)
    (R_sa : matrix) (gamma epsilon : Q) :
  (forall fuel V,
      evaluation_loop (S fuel) pi T R_sa gamma epsilon (length R_sa) V
      = (let* V_new := evaluation_sweep pi T R_sa gamma (length R_sa) V in
         let* d := np_max (np_abs (np_sub V_new V)) in
         if Qltb d epsilon then Return V
         else evaluation_loop fuel pi T R_sa gamma epsilon (length R_sa) V_new))
  /\ (forall fuel V,
        policy_evaluation fuel pi T R_sa gamma epsilon = Return V ->
        exists V_new d,
          evaluation_sweep pi T R_sa gamma (length R_sa) V = Return V_new
          /\ np_max (np_abs (np_sub V_new V)) = Return d
          /\ d < epsilon)
  /\ (forall V_1 d,
        evaluation_sweep pi T R_sa gamma (length R_sa) (np_zeros (length R_sa))
        = Return V_1 ->
        np_max (np_abs (np_sub V_1 (np_zeros (length R_sa)))) = Return d ->
        d < epsilon ->
        forall fuel,
          policy_evaluation (S fuel) pi T R_sa gamma epsilon
          = Return (np_zeros (length R_sa))).
Proof.
  split; [reflexivity|]. split.
  - intros fuel V H. unfold policy_evaluation in H.
    eapply evaluation_loop_returns. exact H.
  - intros V_1 d Hs Hd Hlt fuel. unfold policy_evaluation.
    cbn [evaluation_loop]. rewrite Hs. cbn [bind]. rewrite Hd. cbn [bind].
    apply Qltb_lt in Hlt. rewrite Hlt. reflexivity.
Qed.

Section EvaluationOutcome.
Variables (pi : list Z) (T : tensor) (R_sa : matrix) (gamma epsilon : Q).
Hypothesis Hmdp : valid_mdp T R_sa = true.
Hypothesis Hpi : valid_policy (length R_sa) (num_actions R_sa) pi = true.

Let nS := length R_sa.
Let B := bellman_operator pi T R_sa gamma nS.

(** Whatever [gamma] is, the loop either returns the first iterate
    that passes the stopping test or is still running. *)
Lemma evaluation_loop_outcome (fuel : nat) :
  forall V : list Q,
    length V = nS ->
    (exists j, (j < fuel)%nat
       /\ evaluation_loop fuel pi T R_sa gamma epsilon nS V
          = Return (Nat.iter j B V)
       /\ within_tolerance pi T R_sa gamma epsilon (Nat.iter j B V)
       /\ forall i, (i < j)%nat ->
            ~ within_tolerance pi T R_sa gamma epsilon (Nat.iter i B V))
    \/ (evaluation_loop fuel pi T R_sa gamma epsilon nS V = OutOfFuel
        /\ forall i, (i < fuel)%nat ->
             ~ within_tolerance pi T R_sa gamma epsilon (Nat.iter i B V)).
Proof.
  induction fuel as [|fuel IH]; intros V HV.
  - right. split; [reflexivity | intros; lia].
  - destruct (evaluation_loop_step pi T R_sa gamma epsilon Hmdp Hpi fuel V HV)
      as (d & Hd & Hlt & _ & Hloop).
    fold nS in Hloop. fold B in Hloop. rewrite Hloop.
    destruct (Qltb d epsilon) eqn:Ht.
    + left. exists 0%nat. apply Qltb_lt in Ht.
      split; [lia|]. split; [reflexivity|].
      split; [apply Hlt; exact Ht | intros; lia].
    + assert (Hnot : ~ within_tolerance pi T R_sa gamma epsilon V).
      { intros Hw. apply Hlt in Hw. apply Qltb_lt in Hw. congruence. }
      destruct (IH (B V)) as [(j & Hj & Hrun & Hw & Hmin)|[Hout Hall]].
      * apply bellman_operator_length.
      * left. exists (S j). rewrite Nat.iter_succ_r.
        split; [lia|]. split; [exact Hrun|]. split; [exact Hw|].
        intros [|i] Hi; [exact Hnot|].
        rewrite Nat.iter_succ_r. apply Hmin. lia.
      * right. split; [exact Hout|].
        intros [|i] Hi; [exact Hnot|].
        rewrite Nat.iter_succ_r. apply Hall. lia.
Qed.
End EvaluationOutcome.

(** ** Filling an array entry by entry *)

Lemma insert_next {A : Type} (pre row : list A) (y : A) (k : nat) :
  length pre = k -> (k < length row)%nat ->
  <[k := y]> (pre ++ drop k row) = (pre ++ [y]) ++ drop (S k) row.
Proof.
  intros <- Hlt.
  destruct (lookup_lt_is_Some_2 row (length pre) Hlt) as [x Hx].
  rewrite (drop_S _ _ _ Hx).
  rewrite insert_app_r_alt by lia. rewrite Nat.sub_diag. simpl.
  rewrite <- app_assoc. reflexivity.
Qed.

Lemma for_range_fill {A : Type} (n : nat) (body : nat -> list A -> outcome (list A))
    (g : nat -> A) (init : list A) :
  length init = n ->
  (forall s, (s < n)%nat ->
     body s (map g (seq 0 s) ++ drop s init)
     = Return (<[s := g s]> (map g (seq 0 s) ++ drop s init))) ->
  for_range (seq 0 n) body init = Return (map g (seq 0 n)).
Proof.
  intros Hlen Hbody.
  assert (Hk : forall k, (k <= n)%nat ->
            for_range (seq 0 k) body init
            = Return (map g (seq 0 k) ++ drop k init)).
  { induction k as [|k IH]; intros Hle.
    - simpl. rewrite drop_0. reflexivity.
    - rewrite seq_S, for_range_app, IH by lia. simpl.
      rewrite Hbody by lia. f_equal.
      assert (Hlm : length (map g (seq 0 k)) = k)
        by (rewrite length_map, length_seq; reflexivity).
      rewrite map_app. simpl.
      rewrite (insert_next _ _ _ k Hlm) by lia. reflexivity. }
  rewrite Hk by lia. rewrite drop_ge by lia. rewrite app_nil_r. reflexivity.
Qed.

(** The inner loop of [policy_improvement] writes one row of [Q]. *)
Lemma for_range_fill_row {A : Type} (nA s : nat) (f : nat -> outcome A)
    (g : nat -> A) (Qm : list (list A)) (row : list A) :
  Qm !! s = Some row -> length row = nA ->
  (forall a, (a < nA)%nat -> f a = Return (g a)) ->
  for_range (seq 0 nA)
    (fun a Qm' => let* x := f a in setitem2 Qm' s a x) Qm
  = Return (<[s := map g (seq 0 nA)]> Qm).
Proof.
  intros Hrow Hlen Hf.
  pose proof (lookup_lt_Some _ _ _ Hrow) as Hs.
  assert (Hk : forall k, (k <= nA)%nat ->
            for_range (seq 0 k)
              (fun a Qm' => let* x := f a in setitem2 Qm' s a x) Qm
            = Return (<[s := map g (seq 0 k) ++ drop k row]> Qm)).
  { induction k as [|k IH]; intros Hle.
    - cbn [seq for_range map app]. rewrite drop_0.
      rewrite list_insert_id by exact Hrow. reflexivity.
    - rewrite seq_S, for_range_app, IH by lia. cbn [bind Nat.add for_range].
      rewrite Hf by lia. cbn [bind]. unfold setitem2.
      rewrite list_lookup_insert_eq by exact Hs.
      assert (Hlm : length (map g (seq 0 k)) = k)
        by (rewrite length_map, length_seq; reflexivity).
      unfold setitem.
      destruct (Nat.ltb_spec k (length (map g (seq 0 k) ++ drop k row)))
        as [_|Hge];
        [|rewrite length_app, Hlm, length_drop in Hge; lia].
      cbn [bind]. rewrite list_insert_insert_eq. do 2 f_equal.
      rewrite map_app. simpl.
      rewrite (insert_next _ _ _ k Hlm) by lia. reflexivity. }
  rewrite Hk by lia. rewrite drop_ge by lia. rewrite app_nil_r. reflexivity.
Qed.

Lemma fill_Q_shapes (V : list Q) (T : tensor) (R_sa : matrix) (gamma : Q)
    (nS nA : nat) :
  has_shape2 nS nA R_sa = true -> has_shape3 nS nA nS T = true ->
  length V = nS ->
  fill_Q V T R_sa gamma nS nA (np_zeros2 nS nA)
  = Return (map (fun s => map (bellman_rhs T R_sa gamma V nS s) (seq 0 nA))
                (seq 0 nS)).
Proof.
  intros HR HT HV. unfold fill_Q. apply for_range_fill.
  - apply length_replicate.
  - intros s Hs.
    apply for_range_fill_row with (row := np_zeros nA).
    + rewrite lookup_app_r by (rewrite length_map, length_seq; lia).
      rewrite length_map, length_seq, Nat.sub_diag.
      rewrite lookup_drop, Nat.add_0_r. unfold np_zeros2.
      apply lookup_replicate_2. exact Hs.
    + apply length_replicate.
    + intros a Ha. apply (backup_shapes T R_sa gamma V nS nA); assumption.
Qed.
(** ** The first index of the maximum *)

Lemma argmax_from_spec (rest pre : list Q) (best : Q) (best_i : nat) :
  (best_i < length pre)%nat ->
  nth best_i pre 0 = best ->
  (forall j, (j < length pre)%nat -> nth j pre 0 <= best) ->
  (forall j, (j < best_i)%nat -> nth j pre 0 < best) ->
  let r := argmax_from best best_i (length pre) rest in
  (r < length (pre ++ rest))%nat
  /\ (forall j, (j < length (pre ++ rest))%nat ->
        nth j (pre ++ rest) 0 <= nth r (pre ++ rest) 0)
  /\ (forall j, (j < r)%nat ->
        nth j (pre ++ rest) 0 < nth r (pre ++ rest) 0).
Proof.
  revert pre best best_i.
  induction rest as [|x rest IH]; intros pre best best_i Hi Hbest Hle Hlt.
  - cbn [argmax_from]. rewrite app_nil_r. rewrite Hbest. auto.
  - cbn [argmax_from].
    replace (pre ++ x :: rest) with ((pre ++ [x]) ++ rest)
      by (rewrite <- app_assoc; reflexivity).
    replace (S (length pre)) with (length (pre ++ [x]))
      by (rewrite length_app; simpl; lia).
    assert (Hnth : forall j, (j < length pre)%nat ->
              nth j (pre ++ [x]) 0 = nth j pre 0)
      by (intros j Hj; apply app_nth1; exact Hj).
    assert (Hlast : nth (length pre) (pre ++ [x]) 0 = x)
      by (rewrite app_nth2 by lia; rewrite Nat.sub_diag; reflexivity).
    destruct (Qltb best x) eqn:Hcmp.
    + apply Qltb_lt in Hcmp. apply IH.
      * rewrite length_app. simpl. lia.
      * exact Hlast.
      * intros j Hj. rewrite length_app in Hj. simpl in Hj.
        destruct (Nat.eq_dec j (length pre)) as [->|Hne].
        -- rewrite Hlast. lra.
        -- rewrite Hnth by lia. specialize (Hle j ltac:(lia)). lra.
      * intros j Hj. rewrite Hnth by lia. specialize (Hle j ltac:(lia)). lra.
    + apply Qltb_ge in Hcmp. apply IH.
      * rewrite length_app. simpl. lia.
      * rewrite Hnth by lia. exact Hbest.
      * intros j Hj. rewrite length_app in Hj. simpl in Hj.
        destruct (Nat.eq_dec j (length pre)) as [->|Hne].
        -- rewrite Hlast. exact Hcmp.
        -- rewrite Hnth by lia. apply Hle. lia.
      * intros j Hj. rewrite Hnth by lia. apply Hlt. exact Hj.
Qed.

(** [np.argmax] picks an index of the maximum, and the lowest one. *)
Lemma first_argmax_spec (row : list Q) :
  (0 < length row)%nat ->
  (first_argmax row < length row)%nat
  /\ (forall j, (j < length row)%nat ->
        nth j row 0 <= nth (first_argmax row) row 0)
  /\ (forall j, (j < first_argmax row)%nat ->
        nth j row 0 < nth (first_argmax row) row 0).
Proof.
  destruct row as [|x rest]; [simpl; lia|]. intros _.
  apply (argmax_from_spec rest [x] x 0).
  - simpl. lia.
  - reflexivity.
  - intros [|j] Hj; simpl in Hj; [simpl; lra | lia].
  - intros j Hj. lia.
Qed.

Lemma np_argmax_axis1_rows (Qm : matrix) :
  Forall (fun row => (0 < length row)%nat) Qm ->
  np_argmax_axis1 Qm = Return (map (fun row => Z.of_nat (first_argmax row)) Qm).
Proof.
  induction 1 as [|row Qm Hrow _ IH]; [reflexivity|].
  cbn [np_argmax_axis1 map].
  destruct row as [|x rest]; [simpl in Hrow; lia|].
  cbn [np_argmax bind]. rewrite IH. reflexivity.
Qed.
(** ** Policy improvement *)

Lemma nth_map_seq {A : Type} (f : nat -> A) (n i : nat) (d : A) :
  (i < n)%nat -> nth i (map f (seq 0 n)) d = f i.
Proof.
  intros Hi. rewrite (nth_indep _ d (f 0%nat))
    by (rewrite length_map, length_seq; exact Hi).
  rewrite (map_nth f). rewrite seq_nth by exact Hi. reflexivity.
Qed.

Lemma nth_map_default {A B : Type} (f : A -> B) (l : list A) (i : nat)
    (d : A) (d' : B) :
  (i < length l)%nat -> nth i (map f l) d' = f (nth i l d).
Proof.
  intros Hi. rewrite (nth_indep _ d' (f d)) by (rewrite length_map; exact Hi).
  apply map_nth.
Qed.

Lemma shape2_eq (R_sa : matrix) :
  shape2 R_sa = (length R_sa, num_actions R_sa).
Proof. reflexivity. Qed.

(** On arrays of the right shapes [policy_improvement] returns the table
    of Bellman right-hand sides and, for every state, the first index of
    the maximum of its row. *)
Lemma policy_improvement_returns (V : list Q) (T : tensor) (R_sa : matrix)
    (gamma : Q) :
  let nS := length R_sa in
  let nA := num_actions R_sa in
  has_shape2 nS nA R_sa = true -> has_shape3 nS nA nS T = true ->
  length V = nS -> (0 < nA)%nat ->
  let Qm := map (fun s => map (bellman_rhs T R_sa gamma V nS s) (seq 0 nA))
                (seq 0 nS) in
  policy_improvement V T R_sa gamma
  = Return (Qm, map (fun r => Z.of_nat (first_argmax r)) Qm).
Proof.
  intros nS nA HR HT HV HnA Qm.
  unfold policy_improvement. rewrite shape2_eq. fold nS nA.
  rewrite (fill_Q_shapes V T R_sa gamma nS nA) by assumption.
  fold Qm. cbn [bind].
  rewrite np_argmax_axis1_rows; [reflexivity|].
  apply Forall_forall. intros r Hr. unfold Qm in Hr.
  apply list_elem_of_In, in_map_iff in Hr as (s & <- & _).
  rewrite length_map, length_seq. exact HnA.
Qed.

(** ** Convergence without rounding *)

(** Over the rationals, where no operation rounds, the iteration from
    the zero vector reaches after finitely many updates the first iterate
    that passes the stopping test.  In binary64 it need not: see
    [policy_evaluation_rounding_cycle]. *)
Lemma policy_evaluation_returns (pi : list Z) (T : tensor) (R_sa : matrix)
    (gamma epsilon : Q) :
  valid_mdp T R_sa = true ->
  valid_policy (length R_sa) (num_actions R_sa) pi = true ->
  0 <= gamma -> gamma < 1 -> 0 < epsilon ->
  let nS := length R_sa in
  let B := bellman_operator pi T R_sa gamma nS in
  exists k,
    (forall fuel, (k < fuel)%nat ->
       policy_evaluation fuel pi T R_sa gamma epsilon
       = Return (Nat.iter k B (np_zeros nS)))
    /\ within_tolerance pi T R_sa gamma epsilon (Nat.iter k B (np_zeros nS))
    /\ (forall i, (i < k)%nat ->
          ~ within_tolerance pi T R_sa gamma epsilon
              (Nat.iter i B (np_zeros nS)))
    /\ length (Nat.iter k B (np_zeros nS)) = nS.
Proof.
  intros Hmdp Hpi Hg0 Hg1 Heps nS B.
  assert (HV0 : length (np_zeros nS) = nS) by apply length_replicate.
  destruct (evaluation_loop_step pi T R_sa gamma epsilon Hmdp Hpi 0
              (np_zeros nS) HV0) as (d & _ & _ & Hle & _).
  destruct (geometric_small gamma d epsilon Hg0 Hg1 Heps) as [k Hk].
  destruct (evaluation_loop_converges pi T R_sa gamma epsilon Hmdp Hpi k Hg0
              (np_zeros nS) d HV0) as (j & Hj & Hrun & Hw & Hmin).
  - apply Hle. apply Qle_refl.
  - exact Hk.
  - exists j. fold nS in Hrun, Hw, Hmin. fold B in Hrun, Hw, Hmin.
    split; [exact Hrun|]. split; [exact Hw|]. split; [exact Hmin|].
    apply iter_B_length. exact HV0.
Qed.

(** ** The driver loop *)

Lemma round_functional (T : tensor) (R_sa : matrix) (gamma epsilon : Q)
    (pi : list Z) (Q1 Q2 : matrix) (p1 p2 : list Z) :
  round T R_sa gamma epsilon pi Q1 p1 ->
  round T R_sa gamma epsilon pi Q2 p2 ->
  Q1 = Q2 /\ p1 = p2.
Proof.
  intros (f1 & V1 & He1 & Hi1) (f2 & V2 & He2 & Hi2).
  assert (V1 = V2) by (eapply policy_evaluation_functional; eassumption).
  subst V2. rewrite Hi1 in Hi2. injection Hi2 as -> ->. auto.
Qed.

Lemma iteration_loop_unfold (fuel : nat) (Qm : matrix) (pi : list Z)
    (T : tensor) (R_sa : matrix) (gamma epsilon : Q) (steps : nat) :
  iteration_loop (S fuel) Qm pi T R_sa gamma epsilon steps
  = (let* V := policy_evaluation (S fuel) pi T R_sa gamma epsilon in
     let* (Qm', pi_new) := policy_improvement V T R_sa gamma in
     if np_array_equal pi pi_new then Return (Qm', pi, (steps + 1)%nat)
     else iteration_loop fuel Qm' pi_new T R_sa gamma epsilon (steps + 1)%nat).
Proof. reflexivity. Qed.

Lemma iteration_loop_rounds (T : tensor) (R_sa : matrix) (gamma epsilon : Q)
    (fuel : nat) :
  forall (Q0 : matrix) (pi : list Z) (steps0 : nat) (Qm : matrix)
         (pi' : list Z) (steps : nat),
    iteration_loop fuel Q0 pi T R_sa gamma epsilon steps0
    = Return (Qm, pi', steps) ->
    exists n, steps = (steps0 + n)%nat
              /\ rounds T R_sa gamma epsilon n pi Qm pi'.
Proof.
  induction fuel as [|fuel IH]; intros Q0 pi steps0 Qm pi' steps H;
    [discriminate|].
  rewrite iteration_loop_unfold in H.
  destruct (policy_evaluation (S fuel) pi T R_sa gamma epsilon)
    as [V| |] eqn:He; cbn [bind] in H; try discriminate.
  destruct (policy_improvement V T R_sa gamma) as [[Qm' pi_new]| |] eqn:Hi;
    cbn [bind] in H; try discriminate.
  assert (Hr : round T R_sa gamma epsilon pi Qm' pi_new)
    by (exists (S fuel), V; auto).
  unfold np_array_equal in H. destruct (bool_decide_reflect (pi = pi_new)) as [E|NE].
  - injection H as <- <- <-. subst pi_new.
    exists 1%nat. split; [reflexivity|]. apply rounds_stop. exact Hr.
  - apply IH in H as (n & -> & Hn).
    exists (S n). split; [lia|]. eapply rounds_next; eassumption.
Qed.

Lemma rounds_iteration_loop (T : tensor) (R_sa : matrix) (gamma epsilon : Q)
    (n : nat) (pi : list Z) (Qm : matrix) (pi' : list Z) :
  rounds T R_sa gamma epsilon n pi Qm pi' ->
  exists fuel0, forall fuel, (fuel0 <= fuel)%nat ->
    forall (Q0 : matrix) (steps0 : nat),
      iteration_loop fuel Q0 pi T R_sa gamma epsilon steps0
      = Return (Qm, pi', (steps0 + n)%nat).
Proof.
  induction 1 as [pi Qm (f & V & He & Hi)
                 |n pi pi_new pi' Qm' Qm (f & V & He & Hi) Hne _ (fuel0 & IH)].
  - exists (S f). intros [|fuel] Hle Q0 steps0; [lia|].
    rewrite iteration_loop_unfold.
    rewrite (policy_evaluation_mono _ _ _ _ _ _ _ _ He); [|lia]. cbn [bind].
    rewrite Hi. cbn [bind]. unfold np_array_equal.
    rewrite bool_decide_eq_true_2 by reflexivity. reflexivity.
  - exists (S (Nat.max f fuel0)). intros [|fuel] Hle Q0 steps0; [lia|].
    rewrite iteration_loop_unfold.
    rewrite (policy_evaluation_mono _ _ _ _ _ _ _ _ He) by lia. cbn [bind].
    rewrite Hi. cbn [bind]. unfold np_array_equal.
    rewrite bool_decide_eq_false_2 by exact Hne.
    rewrite IH by lia. do 2 f_equal. lia.
Qed.

Lemma rounds_pos (T : tensor) (R_sa : matrix) (gamma epsilon : Q)
    (n : nat) (pi : list Z) (Qm : matrix) (pi' : list Z) :
  rounds T R_sa gamma epsilon n pi Qm pi' ->
  (1 <= n)%nat /\ round T R_sa gamma epsilon pi' Qm pi'.
Proof.
  induction 1 as [pi Qm Hr|n pi pi_new pi' Qm' Qm _ _ _ [IHn IHr]].
  - split; [lia | exact Hr].
  - split; [lia | exact IHr].
Qed.

(** C3.  [policy_iteration] returns [(Qm, pi, steps)] for some fuel
    exactly when the loop of the specification, started at [pi_init],
    makes [steps] rounds and stops with [Qm] and [pi]: each round
    evaluates the current policy, improves it and counts one step; the
    round whose improved policy equals the current one is the last, any
    other round continues from the improved policy.  A returned [steps]
    is at least 1, and the returned policy is what one more evaluation
    and improvement of it yields, with [Qm] the table of that round. *)
Theorem policy_iteration_loop (Q_init : matrix) (pi_init : list Z)
    (S_ A_ : list Z) (T : tensor) (R_sa : matrix) (gamma epsilon : Q)
    (Qm : matrix) (pi : list Z) (steps : nat) :
  ((exists fuel,
       policy_iteration fuel Q_init pi_init (S_, A_, T, R_sa, gamma) epsilon
       = Return (Qm, pi, steps))
   <-> rounds T R_sa gamma epsilon steps pi_init Qm pi)
  /\ (rounds T R_sa gamma epsilon steps pi_init Qm pi ->
      (1 <= steps)%nat /\ round T R_sa gamma epsilon pi Qm pi).
Proof.
  split; [split|].
  - intros [fuel H]. unfold policy_iteration in H.
    apply iteration_loop_rounds in H as (n & -> & Hn). exact Hn.
  - intros H. apply rounds_iteration_loop in H as [fuel0 H].
    exists fuel0. unfold policy_iteration. apply H. lia.
  - apply rounds_pos.
Qed.

(** ** The improved policy is always a policy *)

Lemma for_range_invariant {St : Type} (P : St -> Prop) (idx : list nat)
    (body : nat -> St -> outcome St) :
  (forall i x y, body i x = Return y -> P x -> P y) ->
  forall init st, for_range idx body init = Return st -> P init -> P st.
Proof.
  intros Hbody. induction idx as [|i idx IH]; intros init st H HP.
  - injection H as <-. exact HP.
  - cbn [for_range] in H. destruct (body i init) as [x| |] eqn:Hb;
      cbn [bind] in H; try discriminate.
    eapply IH; [exact H|]. eapply Hbody; eassumption.
Qed.

Lemma setitem2_shaped (n m : nat) (a a' : matrix) (i j : nat) (x : Q) :
  setitem2 a i j x = Return a' -> shaped n m a -> shaped n m a'.
Proof.
  unfold setitem2, setitem. intros H [Hn Hrows].
  destruct (a !! i) as [row|] eqn:Hrow; [|discriminate].
  destruct (j <? length row)%nat; cbn [bind] in H; [|discriminate].
  injection H as <-. split.
  - rewrite length_insert. exact Hn.
  - apply Forall_insert; [exact Hrows|].
    rewrite length_insert.
    rewrite Forall_lookup in Hrows. eapply Hrows. exact Hrow.
Qed.

Lemma fill_Q_shaped (V : list Q) (T : tensor) (R_sa : matrix) (gamma : Q)
    (nS nA : nat) (Qm : matrix) :
  fill_Q V T R_sa gamma nS nA (np_zeros2 nS nA) = Return Qm ->
  shaped nS nA Qm.
Proof.
  unfold fill_Q. intros H.
  apply (for_range_invariant (shaped nS nA)) in H; [exact H| |].
  - intros s. apply (for_range_invariant (shaped nS nA)).
    intros a x y Hb. destruct (backup _ _ _ _ _ _ _); cbn [bind] in Hb;
      try discriminate.
    eapply setitem2_shaped. exact Hb.
  - split; [apply length_replicate|].
    apply Forall_replicate. apply length_replicate.
Qed.

Lemma np_argmax_axis1_bounds (m : nat) (Qm : matrix) :
  forall pi_new : list Z,
    Forall (fun row => length row = m) Qm ->
    np_argmax_axis1 Qm = Return pi_new ->
    length pi_new = length Qm
    /\ forallb (fun a => (0 <=? a)%Z && (a <? Z.of_nat m)%Z) pi_new = true.
Proof.
  induction Qm as [|row Qm IH]; intros pi_new Hrows H.
  - injection H as <-. auto.
  - apply Forall_cons in Hrows as [Hrow Hrows].
    cbn [np_argmax_axis1] in H.
    destruct (np_argmax row) as [i| |] eqn:Hi; cbn [bind] in H;
      try discriminate.
    destruct (np_argmax_axis1 Qm) as [js| |] eqn:Hjs; cbn [bind] in H;
      try discriminate.
    injection H as <-. destruct (IH js Hrows eq_refl) as [Hlen Hall].
    split; [simpl; lia|].
    cbn [forallb]. rewrite Hall, andb_true_r.
    destruct row as [|x rest]; [discriminate|].
    injection Hi as <-.
    destruct (first_argmax_spec (x :: rest)) as [Hlt _]; [simpl; lia|].
    rewrite Hrow in Hlt. cbn [first_argmax] in Hlt.
    apply andb_true_intro. split; [apply Z.leb_le | apply Z.ltb_lt]; lia.
Qed.

Lemma policy_improvement_valid (V : list Q) (T : tensor) (R_sa : matrix)
    (gamma : Q) (Qm : matrix) (pi_new : list Z) :
  policy_improvement V T R_sa gamma = Return (Qm, pi_new) ->
  valid_policy (length R_sa) (num_actions R_sa) pi_new = true.
Proof.
  unfold policy_improvement. rewrite shape2_eq. intros H.
  destruct (fill_Q _ _ _ _ _ _ _) as [Qm'| |] eqn:HQ; cbn [bind] in H;
    try discriminate.
  destruct (np_argmax_axis1 Qm') as [p| |] eqn:Hp; cbn [bind] in H;
    try discriminate.
  injection H as <- <-.
  apply fill_Q_shaped in HQ as [Hn Hrows].
  destruct (np_argmax_axis1_bounds _ _ _ Hrows Hp) as [Hlen Hall].
  unfold valid_policy. rewrite Hall, andb_true_r.
  apply Nat.eqb_eq. lia.
Qed.

(** ** Counting policies *)

Lemma length_flat_map_const {A B : Type} (f : A -> list B) (l : list A) (k : nat) :
  (forall a, length (f a) = k) -> length (flat_map f l) = (length l * k)%nat.
Proof.
  intros Hf. induction l as [|a l IH]; [reflexivity|].
  cbn [flat_map]. rewrite length_app, Hf, IH. simpl. lia.
Qed.

Lemma length_all_policies (nS nA : nat) :
  length (all_policies nS nA) = (nA ^ nS)%nat.
Proof.
  induction nS as [|n IH]; [reflexivity|].
  cbn [all_policies].
  rewrite (length_flat_map_const _ _ (nA ^ n)%nat).
  - unfold np_arange. rewrite length_map, length_seq. simpl. lia.
  - intros a. rewrite length_map. exact IH.
Qed.

Lemma valid_policy_in_all (nS nA : nat) (pi : list Z) :
  valid_policy nS nA pi = true -> In pi (all_policies nS nA).
Proof.
  unfold valid_policy. revert pi. induction nS as [|n IH]; intros pi H;
    apply andb_prop in H as [Hlen Hall]; apply Nat.eqb_eq in Hlen.
  - destruct pi; [left; reflexivity | discriminate].
  - destruct pi as [|a pi]; [discriminate|].
    cbn [forallb] in Hall. apply andb_prop in Hall as [Ha Hall].
    apply andb_prop in Ha as [H0 H1].
    apply Z.leb_le in H0. apply Z.ltb_lt in H1.
    cbn [all_policies]. apply in_flat_map. exists a. split.
    + unfold np_arange. apply in_map_iff. exists (Z.to_nat a).
      split; [lia|]. apply in_seq. lia.
    + apply in_map. apply IH. rewrite Hall, andb_true_r.
      apply Nat.eqb_eq. simpl in Hlen. lia.
Qed.

(** ** A stopping run visits no policy twice *)

Lemma rounds_functional (T : tensor) (R_sa : matrix) (gamma epsilon : Q)
    (n : nat) (pi : list Z) (Qm : matrix) (pi' : list Z) :
  rounds T R_sa gamma epsilon n pi Qm pi' ->
  forall n' Qm' pi'',
    rounds T R_sa gamma epsilon n' pi Qm' pi'' -> n = n'.
Proof.
  induction 1 as [pi Qm Hr|n pi pi_new pi' Qm0 Qm Hr Hne _ IH];
    intros n' Qm' pi'' H'; inversion H' as [? ? Hr'|? ? ? ? ? ? Hr' Hne' Hrest];
    subst.
  - reflexivity.
  - destruct (round_functional _ _ _ _ _ _ _ _ _ Hr Hr') as [_ E]. congruence.
  - destruct (round_functional _ _ _ _ _ _ _ _ _ Hr Hr') as [_ E]. congruence.
  - destruct (round_functional _ _ _ _ _ _ _ _ _ Hr Hr') as [_ E]. subst.
    f_equal. eapply IH. exact Hrest.
Qed.

Lemma round_valid (T : tensor) (R_sa : matrix) (gamma epsilon : Q)
    (pi : list Z) (Qm : matrix) (pi_new : list Z) :
  round T R_sa gamma epsilon pi Qm pi_new ->
  valid_policy (length R_sa) (num_actions R_sa) pi_new = true.
Proof. intros (f & V & _ & Hi). eapply policy_improvement_valid. exact Hi. Qed.

(** The policies a stopping run evaluates, in order. *)
Lemma rounds_trace (T : tensor) (R_sa : matrix) (gamma epsilon : Q)
    (n : nat) (pi : list Z) (Qm : matrix) (pi' : list Z) :
  rounds T R_sa gamma epsilon n pi Qm pi' ->
  exists tr : list (list Z),
    length tr = n
    /\ tr !! 0%nat = Some pi
    /\ (forall i p, tr !! i = Some p ->
          rounds T R_sa gamma epsilon (n - i) p Qm pi')
    /\ (forall i p, tr !! S i = Some p ->
          valid_policy (length R_sa) (num_actions R_sa) p = true).
Proof.
  induction 1 as [pi Qm Hr
                 |n pi pi_new pi' Qm0 Qm Hr Hne Hrest (tr & Hlen & Hhd & Hat & Hval)].
  - exists [pi]. split; [reflexivity|]. split; [reflexivity|]. split.
    + intros [|i] p Hp; [|destruct i; discriminate].
      injection Hp as <-. apply rounds_stop. exact Hr.
    + intros i p Hp. destruct i; discriminate.
  - exists (pi :: tr). split; [simpl; lia|]. split; [reflexivity|]. split.
    + intros [|i] p Hp.
      * injection Hp as <-. rewrite Nat.sub_0_r.
        eapply rounds_next; eassumption.
      * change (tr !! i = Some p) in Hp.
        change (S n - S i)%nat with (n - i)%nat. apply Hat. exact Hp.
    + intros [|i] p Hp.
      * change (tr !! 0%nat = Some p) in Hp.
        rewrite Hhd in Hp. injection Hp as <-. eapply round_valid. exact Hr.
      * change (tr !! S i = Some p) in Hp. eapply Hval. exact Hp.
Qed.

Lemma rounds_bound (T : tensor) (R_sa : matrix) (gamma epsilon : Q)
    (n : nat) (pi : list Z) (Qm : matrix) (pi' : list Z) :
  valid_policy (length R_sa) (num_actions R_sa) pi = true ->
  rounds T R_sa gamma epsilon n pi Qm pi' ->
  (n <= num_actions R_sa ^ length R_sa)%nat.
Proof.
  intros Hpi Hrun.
  destruct (rounds_trace _ _ _ _ _ _ _ _ Hrun) as (tr & Hlen & Hhd & Hat & Hval).
  rewrite <- Hlen, <- length_all_policies.
  apply submseteq_length, NoDup_submseteq.
  - apply NoDup_alt. intros i j p Hi Hj.
    pose proof (lookup_lt_Some _ _ _ Hi) as Hi'.
    pose proof (lookup_lt_Some _ _ _ Hj) as Hj'.
    pose proof (rounds_functional _ _ _ _ _ _ _ _ (Hat i p Hi) _ _ _ (Hat j p Hj)).
    lia.
  - intros p Hp. apply list_elem_of_In, valid_policy_in_all.
    apply list_elem_of_lookup in Hp as [[|i] Hi].
    + rewrite Hhd in Hi. injection Hi as <-. exact Hpi.
    + eapply Hval. exact Hi.
Qed.

(** ** A valid MDP on which the driver never stops *)

Lemma cycle_round_A (f : nat) :
  exists V Qm,
    policy_evaluation (S f) [0%Z; 0%Z] T_cycle R_cycle (9 # 10) default_epsilon
    = Return V
    /\ policy_improvement V T_cycle R_cycle (9 # 10) = Return (Qm, [1%Z; 0%Z]).
Proof. eexists. eexists. split; vm_compute; reflexivity. Qed.

Lemma cycle_round_B (f : nat) :
  exists V Qm,
    policy_evaluation (S (S f)) [1%Z; 0%Z] T_cycle R_cycle (9 # 10) default_epsilon
    = Return V
    /\ policy_improvement V T_cycle R_cycle (9 # 10) = Return (Qm, [0%Z; 0%Z]).
Proof. eexists. eexists. split; vm_compute; reflexivity. Qed.

Lemma cycle_loop (fuel : nat) :
  forall (Q0 : matrix) (steps : nat),
    iteration_loop fuel Q0 [0%Z; 0%Z] T_cycle R_cycle (9 # 10)
      default_epsilon steps = OutOfFuel
    /\ iteration_loop fuel Q0 [1%Z; 0%Z] T_cycle R_cycle (9 # 10)
         default_epsilon steps = OutOfFuel.
Proof.
  induction fuel as [|fuel IH]; intros Q0 steps; [split; reflexivity|].
  rewrite !iteration_loop_unfold. split.
  - destruct (cycle_round_A fuel) as (V & Qm & -> & Hi). cbn [bind].
    rewrite Hi. cbn [bind].
    replace (np_array_equal [0%Z; 0%Z] [1%Z; 0%Z]) with false by reflexivity.
    apply IH.
  - destruct fuel as [|fuel]; [reflexivity|].
    destruct (cycle_round_B fuel) as (V & Qm & -> & Hi). cbn [bind].
    rewrite Hi. cbn [bind].
    replace (np_array_equal [1%Z; 0%Z] [0%Z; 0%Z]) with false by reflexivity.
    apply IH.
Qed.

(** On [T_cycle], [R_cycle] the policies [[0; 0]] and [[1; 0]] follow
    each other forever: the evaluation of the first stops at once at the
    zero vector, whose greedy policy is the second, and the evaluation of
    the second makes the first greedy again. *)
Lemma policy_iteration_cycles :
  valid_mdp T_cycle R_cycle = true
  /\ valid_policy 2 2 [0%Z; 0%Z] = true
  /\ diverges (fun fuel =>
       policy_iteration fuel (np_zeros2 2 2) [0%Z; 0%Z]
         (np_arange 2, np_arange 2, T_cycle, R_cycle, 9 # 10) default_epsilon).
Proof.
  split; [reflexivity|]. split; [reflexivity|].
  intros fuel. unfold policy_iteration. apply cycle_loop.
Qed.

(** ** Rounds of the driver on a valid MDP *)

(** C4, amended.  On a valid MDP, whenever [policy_iteration] returns
    from a valid initial policy it has made at most [nA ^ nS] rounds; the
    discount and the tolerance play no part in the bound.  That it
    returns at all is not claimed: see [policy_iteration_cycles]. *)
Theorem policy_iteration_rounds_bounded (T : tensor) (R_sa : matrix)
    (gamma epsilon : Q) (pi_init : list Z) :
  valid_mdp T R_sa = true ->
  valid_policy (length R_sa) (num_actions R_sa) pi_init = true ->
  forall fuel (Q_init : matrix) (S_ A_ : list Z) (Qm : matrix)
         (pi : list Z) (steps : nat),
    policy_iteration fuel Q_init pi_init (S_, A_, T, R_sa, gamma) epsilon
    = Return (Qm, pi, steps) ->
    (steps <= num_actions R_sa ^ length R_sa)%nat.
Proof.
  intros Hmdp Hpi fuel Q_init S_ A_ Qm pi steps H.
  unfold policy_iteration in H.
  apply iteration_loop_rounds in H as (n & -> & Hn).
  eapply rounds_bound; eassumption.
Qed.

(** The example of the specification stops after two rounds with action 1
    in state 0. *)
Lemma spec_example_run :
  exists Qm,
    policy_iteration 3 (np_zeros2 2 2) [0%Z; 0%Z]
      (np_arange 2, np_arange 2, T_spec, R_spec, 9 # 10) default_epsilon
    = Return (Qm, [1%Z; 0%Z], 2%nat).
Proof. eexists. vm_compute. reflexivity. Qed.

Lemma policy_iteration_rounds_bounded_witness :
  valid_mdp T_spec R_spec = true
  /\ valid_policy 2 2 [0%Z; 0%Z] = true
  /\ exists Qm,
       policy_iteration 3 (np_zeros2 2 2) [0%Z; 0%Z]
         (np_arange 2, np_arange 2, T_spec, R_spec, 9 # 10) default_epsilon
       = Return (Qm, [1%Z; 0%Z], 2%nat)
       /\ (2 <= 2 ^ 2)%nat.
Proof.
  split; [reflexivity|]. split; [reflexivity|].
  eexists. split; [vm_compute; reflexivity|].
  refine (policy_iteration_rounds_bounded T_spec R_spec (9 # 10)
            default_epsilon [0%Z; 0%Z] eq_refl eq_refl
            3%nat (np_zeros2 2 2) (np_arange 2) (np_arange 2) _ _ 2%nat _).
  vm_compute. reflexivity.
Defined.

(** ** The exceptions of the numerical core *)

Lemma raises_only_bind {A B : Type} (P : exn -> Prop) (m : outcome A)
    (k : A -> outcome B) :
  raises_only P m -> (forall a, raises_only P (k a)) ->
  raises_only P (bind m k).
Proof.
  intros Hm Hk e H. destruct m as [a|e'|]; cbn [bind] in H.
  - eapply Hk. exact H.
  - injection H as ->. apply Hm. reflexivity.
  - discriminate.
Qed.

Lemma raises_only_Return {A : Type} (P : exn -> Prop) (a : A) :
  raises_only P (Return a).
Proof. intros e H. discriminate. Qed.

Lemma getitem_raises {A : Type} (a : list A) (i : Z) :
  raises_only array_error (getitem a i).
Proof.
  intros e H. unfold getitem in H.
  repeat match type of H with
         | context [if ?b then _ else _] => destruct b
         | context [match ?o with Some _ => _ | None => _ end] => destruct o
         end; try discriminate; injection H as <-; left; reflexivity.
Qed.

Lemma setitem_raises {A : Type} (a : list A) (i : nat) (x : A) :
  raises_only array_error (setitem a i x).
Proof.
  intros e H. unfold setitem in H. destruct (i <? length a)%nat;
    [discriminate|]. injection H as <-. left. reflexivity.
Qed.

Lemma setitem2_raises {A : Type} (a : list (list A)) (i j : nat) (x : A) :
  raises_only array_error (setitem2 a i j x).
Proof.
  unfold setitem2. destruct (a !! i) as [row|].
  - apply raises_only_bind; [apply setitem_raises|].
    intros; apply raises_only_Return.
  - intros e H. injection H as <-. left. reflexivity.
Qed.

Lemma py_sum_raises (f : nat -> outcome Q) (idx : list nat) (acc : Q) :
  (forall i, raises_only array_error (f i)) ->
  raises_only array_error (py_sum f idx acc).
Proof.
  intros Hf. revert acc. induction idx as [|i idx IH]; intros acc.
  - apply raises_only_Return.
  - cbn [py_sum]. apply raises_only_bind; [apply Hf|]. intros x. apply IH.
Qed.

Lemma for_range_raises {St : Type} (idx : list nat)
    (body : nat -> St -> outcome St) (st : St) :
  (forall i x, raises_only array_error (body i x)) ->
  raises_only array_error (for_range idx body st).
Proof.
  intros Hb. revert st. induction idx as [|i idx IH]; intros st.
  - apply raises_only_Return.
  - cbn [for_range]. apply raises_only_bind; [apply Hb|]. intros x. apply IH.
Qed.

Lemma backup_raises (T : tensor) (R_sa : matrix) (gamma : Q) (V : list Q)
    (nS : nat) (s a : Z) :
  raises_only array_error (backup T R_sa gamma V nS s a).
Proof.
  unfold backup. apply py_sum_raises. intros i. unfold backup_term.
  repeat (apply raises_only_bind; [apply getitem_raises|]; intros ?).
  apply raises_only_Return.
Qed.

Lemma np_max_raises (a : list Q) : raises_only array_error (np_max a).
Proof.
  intros e H. destruct a; [|discriminate]. injection H as <-.
  right. reflexivity.
Qed.

Lemma np_argmax_axis1_raises (Qm : matrix) :
  raises_only array_error (np_argmax_axis1 Qm).
Proof.
  induction Qm as [|row Qm IH]; [apply raises_only_Return|].
  cbn [np_argmax_axis1]. apply raises_only_bind.
  - intros e H. destruct row; [|discriminate]. injection H as <-.
    right. reflexivity.
  - intros i. apply raises_only_bind; [exact IH|].
    intros; apply raises_only_Return.
Qed.

Lemma policy_evaluation_raises (fuel : nat) (pi : list Z) (T : tensor)
    (R_sa : matrix) (gamma epsilon : Q) :
  raises_only array_error (policy_evaluation fuel pi T R_sa gamma epsilon).
Proof.
  unfold policy_evaluation. generalize (np_zeros (length R_sa)) as V.
  induction fuel as [|fuel IH]; intros V; [intros e H; discriminate|].
  cbn [evaluation_loop]. apply raises_only_bind.
  - unfold evaluation_sweep. apply for_range_raises. intros s x.
    apply raises_only_bind; [apply getitem_raises|]. intros a.
    apply raises_only_bind; [apply backup_raises|]. intros y.
    apply setitem_raises.
  - intros V_new. apply raises_only_bind; [apply np_max_raises|].
    intros d. destruct (Qltb d epsilon); [apply raises_only_Return | apply IH].
Qed.

Lemma policy_improvement_raises (V : list Q) (T : tensor) (R_sa : matrix)
    (gamma : Q) :
  raises_only array_error (policy_improvement V T R_sa gamma).
Proof.
  unfold policy_improvement. rewrite shape2_eq.
  apply raises_only_bind.
  - unfold fill_Q. apply for_range_raises. intros s x.
    apply for_range_raises. intros a y.
    apply raises_only_bind; [apply backup_raises|]. intros z.
    apply setitem2_raises.
  - intros Qm. apply raises_only_bind; [apply np_argmax_axis1_raises|].
    intros; apply raises_only_Return.
Qed.

Lemma policy_iteration_raises (fuel : nat) (Q_init : matrix) (pi : list Z)
    (S_ A_ : list Z) (T : tensor) (R_sa : matrix) (gamma epsilon : Q) :
  raises_only array_error
    (policy_iteration fuel Q_init pi (S_, A_, T, R_sa, gamma) epsilon).
Proof.
  unfold policy_iteration. generalize 0%nat as steps. revert Q_init pi.
  induction fuel as [|fuel IH]; intros Q0 pi steps; [intros e H; discriminate|].
  rewrite iteration_loop_unfold.
  apply raises_only_bind; [apply policy_evaluation_raises|]. intros V.
  apply raises_only_bind; [apply policy_improvement_raises|].
  intros [Qm pi_new].
  destruct (np_array_equal pi pi_new); [apply raises_only_Return | apply IH].
Qed.

(** ** The agent wrapper *)

(** C5.  [update_agent] is idempotent.  On a fitted agent it changes
    nothing.  When a call returns, the agent it leaves is fitted and a
    second call leaves that agent, hence its [pi], [Q] and [steps], as it
    is; whatever the outcome of a call, repeating it on the agent it left
    gives the same agent and the same outcome.  On the first call the MDP arrays are taken from the environment,
    [pi] and [Q] start as zeros, the driver runs, and its result is
    stored with the fitted flag set. *)
Theorem update_agent_idempotent (fuel fuel' : nat) (self : agent) :
  (policy_fitted self = true -> update_agent fuel self = (self, Return tt))
  /\ (forall self1,
        update_agent fuel self = (self1, Return tt) ->
        policy_fitted self1 = true
        /\ update_agent fuel' self1 = (self1, Return tt))
  /\ update_agent fuel (fst (update_agent fuel self)) = update_agent fuel self
  /\ (policy_fitted self = false ->
      forall (Qm : matrix) (pi : list Z) (steps : nat),
        policy_iteration fuel
          (np_zeros2 (n_obs self) (n_actions self))
          (np_zeros_int (n_obs self))
          (np_arange (n_obs self), np_arange (n_actions self),
           get_transition_matrix (env self),
           get_reward_per_action (env self), gamma_ self)
          default_epsilon
        = Return (Qm, pi, steps) ->
        exists self1,
          update_agent fuel self = (self1, Return tt)
          /\ T_ self1 = Some (get_transition_matrix (env self))
          /\ R_sa_ self1 = Some (get_reward_per_action (env self))
          /\ S_ self1 = Some (np_arange (n_obs self))
          /\ A_ self1 = Some (np_arange (n_actions self))
          /\ pi_ self1 = Some pi /\ Q_ self1 = Some Qm
          /\ steps_ self1 = steps /\ policy_fitted self1 = true).
Proof.
  split; [|split; [|split]].
  - intros Hf. unfold update_agent. rewrite Hf. reflexivity.
  - intros self1 H. unfold update_agent in H.
    destruct (policy_fitted self) eqn:Hf; cbn [negb] in H.
    + injection H as <-. split; [exact Hf|].
      unfold update_agent. rewrite Hf. reflexivity.
    + destruct (policy_iteration _ _ _ _ _) as [[[Qm pi] steps]| |];
        try discriminate.
      injection H as <-. split; [reflexivity|]. reflexivity.
  - unfold update_agent at 2 3.
    destruct (policy_fitted self) eqn:Hf; cbn [negb].
    + cbn [fst]. unfold update_agent. rewrite Hf. reflexivity.
    + destruct (policy_iteration _ _ _ _ _) as [[[Qm pi] steps]| |] eqn:Hrun;
        cbn [fst]; unfold update_agent;
        cbn [policy_fitted store_result prepare n_obs n_actions env gamma_];
        rewrite ?Hf; cbn [negb]; rewrite ?Hrun; reflexivity.
  - intros Hf Qm pi steps Hrun. unfold update_agent.
    rewrite Hf. cbn [negb]. rewrite Hrun.
    eexists. split; [reflexivity|]. cbn. repeat split; reflexivity.
Qed.

Lemma update_agent_idempotent_witness :
  policy_fitted (init env_spec (9 # 10) 333 "policy.npy") = false
  /\ exists self1,
       update_agent 3 (init env_spec (9 # 10) 333 "policy.npy")
       = (self1, Return tt)
       /\ pi_ self1 = Some [1%Z; 0%Z] /\ steps_ self1 = 2%nat
       /\ policy_fitted self1 = true
       /\ update_agent 0 self1 = (self1, Return tt).
Proof.
  split; [reflexivity|].
  eexists. split; [vm_compute; reflexivity|].
  split; [reflexivity|]. split; [reflexivity|].
  refine (proj1 (proj2 (update_agent_idempotent 3 0
                         (init env_spec (9 # 10) 333 "policy.npy"))) _ _).
  vm_compute. reflexivity.
Defined.

(** C6, amended.  [update_agent] does not validate the transition
    tensor.  Its outcome on an unfitted agent is the outcome of the
    driver on the environment's arrays as they are: whenever the driver
    returns the agent is fitted with its result, and the only exceptions
    are the [IndexError] and [ValueError] that array accesses and
    reductions raise inside the driver, which reach the caller after the
    MDP attributes have been assigned. *)
Theorem update_agent_no_validation (fuel : nat) (self : agent) :
  policy_fitted self = false ->
  let run :=
    policy_iteration fuel
      (np_zeros2 (n_obs self) (n_actions self))
      (np_zeros_int (n_obs self))
      (np_arange (n_obs self), np_arange (n_actions self),
       get_transition_matrix (env self),
       get_reward_per_action (env self), gamma_ self)
      default_epsilon in
  (forall Qm pi steps,
      run = Return (Qm, pi, steps) ->
      update_agent fuel self
      = (store_result (prepare self) Qm pi steps, Return tt))
  /\ (forall e,
        snd (update_agent fuel self) = Raise e ->
        run = Raise e /\ array_error e
        /\ fst (update_agent fuel self) = prepare self).
Proof.
  intros Hf run. unfold update_agent. rewrite Hf. cbn [negb]. fold run.
  split.
  - intros Qm pi steps ->. reflexivity.
  - intros e H.
    pose proof (policy_iteration_raises fuel
                  (np_zeros2 (n_obs self) (n_actions self))
                  (np_zeros_int (n_obs self))
                  (np_arange (n_obs self)) (np_arange (n_actions self))
                  (get_transition_matrix (env self))
                  (get_reward_per_action (env self)) (gamma_ self)
                  default_epsilon) as Hr.
    fold run in Hr.
    destruct run as [[[Qm pi] steps]|e'|]; cbn [snd fst] in *;
      try discriminate.
    injection H as ->. split; [reflexivity|]. split; [|reflexivity].
    apply Hr. reflexivity.
Qed.

(** A tensor whose only row sums to one half is fitted without complaint;
    a tensor with too few states is noticed by an array access of the
    first evaluation, after the attributes have been assigned. *)
Lemma fit_does_not_validate :
  valid_mdp (get_transition_matrix env_half) (get_reward_per_action env_half)
  = false
  /\ snd (update_agent 40 (init env_half (9 # 10) 333 "policy.npy")) = Return tt
  /\ policy_fitted (fst (update_agent 40 (init env_half (9 # 10) 333 "policy.npy")))
     = true
  /\ has_shape3 2 1 2 (get_transition_matrix env_short) = false
  /\ update_agent 5 (init env_short (9 # 10) 333 "policy.npy")
     = (prepare (init env_short (9 # 10) 333 "policy.npy"), Raise IndexError).
Proof. repeat split; vm_compute; reflexivity. Qed.

Lemma update_agent_no_validation_witness :
  policy_fitted (init env_short (9 # 10) 333 "policy.npy") = false
  /\ array_error IndexError
  /\ fst (update_agent 5 (init env_short (9 # 10) 333 "policy.npy"))
     = prepare (init env_short (9 # 10) 333 "policy.npy").
Proof.
  split; [reflexivity|].
  refine (proj2 (proj2 (update_agent_no_validation 5
                          (init env_short (9 # 10) 333 "policy.npy")
                          eq_refl) IndexError _)).
  vm_compute. reflexivity.
Defined.

(** C8, amended.  [load] reads the file named by the agent's
    [filename].  When the file does not exist the [FileNotFoundError] of
    [np.load] reaches the caller and the agent is unchanged.  When the
    file holds an integer array, of any length, that array becomes [pi],
    the agent is marked fitted and the array is returned: its shape is
    not compared with the number of states. *)
Theorem load_stores_any_array (self : agent) (w : world) :
  (files w !! filename self = None ->
   load self w = (self, Raise FileNotFoundError))
  /\ (forall a : list Z,
        files w !! filename self = Some (NpyInt a) ->
        load self w = (store_loaded self a, Return a)
        /\ pi_ (fst (load self w)) = Some a
        /\ policy_fitted (fst (load self w)) = true).
Proof.
  unfold load, np_load. split.
  - intros ->. reflexivity.
  - intros a ->. cbn. auto.
Qed.

(** An agent for three states loads a stored policy of two entries. *)
Lemma load_accepts_wrong_length :
  n_obs (init env_three (9 # 10) 333 "policy.npy") = 3%nat
  /\ load (init env_three (9 # 10) 333 "policy.npy") world_two
     = (store_loaded (init env_three (9 # 10) 333 "policy.npy") [0%Z; 1%Z],
        Return [0%Z; 1%Z])
  /\ policy_fitted
       (fst (load (init env_three (9 # 10) 333 "policy.npy") world_two)) = true.
Proof. repeat split; vm_compute; reflexivity. Qed.

Lemma load_stores_any_array_witness :
  files world_empty !! filename (init env_three (9 # 10) 333 "policy.npy") = None
  /\ load (init env_three (9 # 10) 333 "policy.npy") world_empty
     = (init env_three (9 # 10) 333 "policy.npy", Raise FileNotFoundError).
Proof.
  split; [reflexivity|].
  refine (proj1 (load_stores_any_array
                   (init env_three (9 # 10) 333 "policy.npy") world_empty) _).
  reflexivity.
Defined.

(** C9, amended.  [save] on an unfitted agent issues a warning and
    leaves the files as they are; it never assigns to the agent.  On a
    fitted agent it writes [pi] as a [.npy] array, not always to the
    configured file: [np.save] appends [.npy] to a name that lacks it,
    and only a name that ends in [.npy] is written to as it is.  No
    warning is issued.  In particular after a call of [update_agent]
    that returned, the policy the driver found is what the file holds,
    and under a configured name that ends in [.npy] it can be loaded
    back. *)
Theorem save_warns_or_writes (self : agent) (w : world) :
  (policy_fitted self = false ->
   files (save self w) = files w
   /\ warnings (save self w)
      = warnings w ++ ["Tried to save policy but policy is not fitted yet."%string])
  /\ (policy_fitted self = true ->
      files (save self w)
      = <[np_save_path (filename self) := np_array (pi_ self)]> (files w)
      /\ warnings (save self w) = warnings w
      /\ (ends_with_npy (filename self) = true ->
          np_save_path (filename self) = filename self))
  /\ (forall (fuel : nat) (self0 : agent),
        policy_fitted self0 = false ->
        update_agent fuel self0 = (self, Return tt) ->
        exists pi : list Z,
          pi_ self = Some pi
          /\ files (save self w)
             = <[np_save_path (filename self) := NpyInt pi]> (files w)
          /\ (ends_with_npy (filename self) = true ->
              np_load (filename self) (save self w) = Return pi)).
Proof.
  split; [|split].
  - unfold save. intros ->. split; reflexivity.
  - unfold save. intros ->. split; [reflexivity|]. split; [reflexivity|].
    intros Hext. unfold np_save_path. rewrite Hext. reflexivity.
  - intros fuel self0 Hf0 Hrun. unfold update_agent in Hrun.
    rewrite Hf0 in Hrun. cbn [negb] in Hrun.
    destruct (policy_iteration _ _ _ _ _) as [[[Qm pi] steps]| |];
      try discriminate.
    injection Hrun as <-. exists pi. split; [reflexivity|].
    split; [reflexivity|].
    intros Hext. unfold save, np_load, np_save, np_save_path.
    cbn [policy_fitted store_result filename pi_ np_array files] in *.
    rewrite Hext. rewrite lookup_insert_eq. reflexivity.
Qed.

Lemma save_warns_or_writes_witness :
  policy_fitted (init env_spec (9 # 10) 333 "policy.npy") = false
  /\ files (save (init env_spec (9 # 10) 333 "policy.npy") world_two)
     = files world_two
  /\ warnings (save (init env_spec (9 # 10) 333 "policy.npy") world_two)
     = ["Tried to save policy but policy is not fitted yet."%string]
  /\ exists (self1 : agent) (pi : list Z),
       update_agent 3 (init env_spec (9 # 10) 333 "policy.npy")
       = (self1, Return tt)
       /\ pi_ self1 = Some pi
       /\ np_load "policy.npy" (save self1 world_empty) = Return pi.
Proof.
  split; [reflexivity|].
  split; [|split].
  - exact (proj1 (proj1 (save_warns_or_writes
                           (init env_spec (9 # 10) 333 "policy.npy") world_two)
                    eq_refl)).
  - exact (proj2 (proj1 (save_warns_or_writes
                           (init env_spec (9 # 10) 333 "policy.npy") world_two)
                    eq_refl)).
  - set (self1 := fst (update_agent 3 (init env_spec (9 # 10) 333 "policy.npy"))).
    assert (Hrun : update_agent 3 (init env_spec (9 # 10) 333 "policy.npy")
                   = (self1, Return tt)) by (vm_compute; reflexivity).
    destruct (proj2 (proj2 (save_warns_or_writes self1 world_empty))
                3%nat (init env_spec (9 # 10) 333 "policy.npy") eq_refl Hrun)
      as (pi & Hpi & _ & Hload).
    exists self1, pi. split; [exact Hrun|]. split; [exact Hpi|].
    apply Hload. vm_compute. reflexivity.
Defined.

(** An agent configured with the file name [policy] and fitted on the
    example of the specification: [save] stores nothing under the
    configured name, the policy is in [policy.npy], and [load], which
    reads the configured name, does not find it. *)
Lemma save_appends_extension :
  exists self : agent,
    update_agent 3 (init env_spec (9 # 10) 333 "policy") = (self, Return tt)
    /\ policy_fitted self = true
    /\ filename self = "policy"%string
    /\ files (save self world_empty) !! "policy"%string = None
    /\ files (save self world_empty) !! "policy.npy"%string
       = Some (NpyInt [1%Z; 0%Z])
    /\ load self (save self world_empty) = (self, Raise FileNotFoundError).
Proof.
  set (self := fst (update_agent 3 (init env_spec (9 # 10) 333 "policy"))).
  exists self.
  assert (Hfiles : files (save self world_empty)
                   = <["policy.npy"%string := NpyInt [1%Z; 0%Z]]> ∅)
    by (vm_compute; reflexivity).
  assert (Hnone : files (save self world_empty) !! "policy"%string = None).
  { rewrite Hfiles. rewrite lookup_insert_ne by discriminate.
    apply lookup_empty. }
  split; [vm_compute; reflexivity|].
  split; [reflexivity|]. split; [reflexivity|].
  split; [exact Hnone|].
  split; [rewrite Hfiles; apply lookup_insert_eq|].
  unfold load, np_load.
  change (filename self) with "policy"%string.
  rewrite Hnone. reflexivity.
Qed.

(** ** The theorems at concrete inputs *)

Lemma policy_iteration_loop_witness :
  exists Qm,
    rounds T_spec R_spec (9 # 10) default_epsilon 2 [0%Z; 0%Z] Qm [1%Z; 0%Z]
    /\ round T_spec R_spec (9 # 10) default_epsilon [1%Z; 0%Z] Qm [1%Z; 0%Z].
Proof.
  destruct spec_example_run as [Qm Hrun]. exists Qm.
  pose proof (policy_iteration_loop (np_zeros2 2 2) [0%Z; 0%Z]
                (np_arange 2) (np_arange 2) T_spec R_spec (9 # 10)
                default_epsilon Qm [1%Z; 0%Z] 2) as [Hiff Hcons].
  assert (Hr : rounds T_spec R_spec (9 # 10) default_epsilon 2
                 [0%Z; 0%Z] Qm [1%Z; 0%Z]).
  { apply Hiff. exists 3%nat. exact Hrun. }
  split; [exact Hr | apply Hcons; exact Hr].
Defined.

Lemma policy_evaluation_returns_old_V_witness :
  policy_evaluation 1 [0%Z; 0%Z] T_spec R_spec (9 # 10) default_epsilon
  = Return (np_zeros 2).
Proof.
  refine (proj2 (proj2 (policy_evaluation_returns_old_V [0%Z; 0%Z] T_spec
                          R_spec (9 # 10) default_epsilon)) _ _ _ _ _ 0%nat).
  - vm_compute. reflexivity.
  - vm_compute. reflexivity.
  - vm_compute. reflexivity.
Defined.

(** ** What the numerical routines return, whatever the arrays *)

Lemma setitem_length {A : Type} (a a' : list A) (i : nat) (x : A) :
  setitem a i x = Return a' -> length a' = length a.
Proof.
  unfold setitem. destruct (i <? length a)%nat; [|discriminate].
  intros [= <-]. apply length_insert.
Qed.

Lemma evaluation_sweep_length (pi : list Z) (T : tensor) (R_sa : matrix)
    (gamma : Q) (nS : nat) (V V_new : list Q) :
  evaluation_sweep pi T R_sa gamma nS V = Return V_new -> length V_new = nS.
Proof.
  unfold evaluation_sweep. intros H.
  apply (for_range_invariant (fun st => length st = nS)) in H; [exact H| |].
  - intros s x y Hb Hx.
    destruct (getitem pi (Z.of_nat s)); cbn [bind] in Hb; try discriminate.
    destruct (backup _ _ _ _ _ _ _); cbn [bind] in Hb; try discriminate.
    apply setitem_length in Hb. lia.
  - apply length_replicate.
Qed.

Lemma evaluation_loop_length (pi : list Z) (T : tensor) (R_sa : matrix)
    (gamma epsilon : Q) (nS : nat) (fuel : nat) :
  forall V0 V : list Q,
    length V0 = nS ->
    evaluation_loop fuel pi T R_sa gamma epsilon nS V0 = Return V ->
    length V = nS.
Proof.
  induction fuel as [|fuel IH]; intros V0 V HV0 H; [discriminate|].
  cbn [evaluation_loop] in H.
  destruct (evaluation_sweep pi T R_sa gamma nS V0) as [V_new| |] eqn:Hs;
    cbn [bind] in H; try discriminate.
  destruct (np_max _) as [d| |]; cbn [bind] in H; try discriminate.
  destruct (Qltb d epsilon).
  - injection H as <-. exact HV0.
  - eapply IH; [|exact H]. eapply evaluation_sweep_length. exact Hs.
Qed.



(** ** What the driver returns *)

Lemma iteration_loop_last_round (T : tensor) (R_sa : matrix) (gamma epsilon : Q)
    (fuel : nat) :
  forall (Q0 : matrix) (pi0 : list Z) (steps0 : nat) (Qm : matrix)
         (pi : list Z) (steps : nat),
    iteration_loop fuel Q0 pi0 T R_sa gamma epsilon steps0
    = Return (Qm, pi, steps) ->
    exists f V,
      (1 <= f <= fuel)%nat
      /\ policy_evaluation f pi T R_sa gamma epsilon = Return V
      /\ policy_improvement V T R_sa gamma = Return (Qm, pi).
Proof.
  induction fuel as [|fuel IH]; intros Q0 pi0 steps0 Qm pi steps H;
    [discriminate|].
  rewrite iteration_loop_unfold in H.
  destruct (policy_evaluation (S fuel) pi0 T R_sa gamma epsilon)
    as [V| |] eqn:He; cbn [bind] in H; try discriminate.
  destruct (policy_improvement V T R_sa gamma) as [[Qm' pi_new]| |] eqn:Hi;
    cbn [bind] in H; try discriminate.
  unfold np_array_equal in H.
  destruct (bool_decide_reflect (pi0 = pi_new)) as [E|NE].
  - injection H as <- <- <-. subst pi_new.
    exists (S fuel), V. split; [lia|]. split; assumption.
  - apply IH in H as (f & V' & Hf & He' & Hi').
    exists f, V'. split; [lia|]. split; assumption.
Qed.



(** X3.  The result of [policy_iteration] is stable: started again from
    the policy it returned, with any initial table and any state and
    action arrays, the driver stops after one round with the same table
    and the same policy. *)
Theorem policy_iteration_restart (fuel : nat) (Q_init : matrix)
    (pi_init S_ A_ : list Z) (T : tensor) (R_sa : matrix) (gamma epsilon : Q)
    (Qm : matrix) (pi : list Z) (steps : nat) :
  policy_iteration fuel Q_init pi_init (S_, A_, T, R_sa, gamma) epsilon
  = Return (Qm, pi, steps) ->
  forall (Q_init' : matrix) (S_' A_' : list Z),
    policy_iteration fuel Q_init' pi (S_', A_', T, R_sa, gamma) epsilon
    = Return (Qm, pi, 1%nat).
Proof.
  unfold policy_iteration. intros H Q_init' S_' A_'.
  apply iteration_loop_last_round in H as (f & V & Hf & He & Hi).
  destruct fuel as [|fuel]; [lia|].
  rewrite iteration_loop_unfold.
  rewrite (policy_evaluation_mono _ _ _ _ _ _ _ _ He) by lia. cbn [bind].
  rewrite Hi. cbn [bind]. unfold np_array_equal.
  rewrite bool_decide_eq_true_2 by reflexivity. reflexivity.
Qed.

Lemma policy_iteration_restart_witness :
  exists Qm,
    policy_iteration 3 (np_zeros2 2 2) [0%Z; 0%Z]
      (np_arange 2, np_arange 2, T_spec, R_spec, 9 # 10) default_epsilon
    = Return (Qm, [1%Z; 0%Z], 2%nat)
    /\ policy_iteration 3 [] [1%Z; 0%Z] ([], [], T_spec, R_spec, 9 # 10)
         default_epsilon
       = Return (Qm, [1%Z; 0%Z], 1%nat).
Proof.
  eexists.
  assert (H : policy_iteration 3 (np_zeros2 2 2) [0%Z; 0%Z]
                (np_arange 2, np_arange 2, T_spec, R_spec, 9 # 10)
                default_epsilon = Return (_, [1%Z; 0%Z], 2%nat))
    by (vm_compute; reflexivity).
  split; [exact H|].
  exact (policy_iteration_restart _ _ _ _ _ _ _ _ _ _ _ _ H [] [] []).
Defined.

(** ** A tolerance that is never met *)

(** X6.  [policy_evaluation] does not check [epsilon]: on a valid MDP and
    policy, with [epsilon <= 0] the stopping test never passes, so the
    function never returns, and neither does [policy_iteration]. *)
Theorem policy_evaluation_nonpositive_epsilon (pi : list Z) (T : tensor)
    (R_sa : matrix) (gamma epsilon : Q) :
  valid_mdp T R_sa = true ->
  valid_policy (length R_sa) (num_actions R_sa) pi = true ->
  epsilon <= 0 ->
  diverges (fun fuel => policy_evaluation fuel pi T R_sa gamma epsilon)
  /\ forall (Q_init : matrix) (S_ A_ : list Z),
       diverges (fun fuel =>
         policy_iteration fuel Q_init pi (S_, A_, T, R_sa, gamma) epsilon).
Proof.
  intros Hmdp Hpi Heps.
  destruct (valid_mdp_inv T R_sa Hmdp) as (HnS & _).
  assert (Hev : forall fuel,
            policy_evaluation fuel pi T R_sa gamma epsilon = OutOfFuel).
  { intros fuel. unfold policy_evaluation.
    destruct (evaluation_loop_outcome pi T R_sa gamma epsilon Hmdp Hpi fuel
                (np_zeros (length R_sa)) (length_replicate _ _))
      as [(j & _ & _ & Hw & _)|[Hout _]]; [|exact Hout].
    exfalso. specialize (Hw 0%nat HnS).
    pose proof (Qabs_nonneg
                  (V_at (bellman_operator pi T R_sa gamma (length R_sa)
                           (Nat.iter j
                              (bellman_operator pi T R_sa gamma (length R_sa))
                              (np_zeros (length R_sa)))) 0
                   - V_at (Nat.iter j
                             (bellman_operator pi T R_sa gamma (length R_sa))
                             (np_zeros (length R_sa))) 0)).
    lra. }
  split; [exact Hev|].
  intros Q_init S_ A_ fuel. unfold policy_iteration.
  destruct fuel as [|fuel]; [reflexivity|].
  rewrite iteration_loop_unfold, Hev. reflexivity.
Qed.

Lemma policy_evaluation_nonpositive_epsilon_witness :
  0 <= 0
  /\ diverges (fun fuel => policy_evaluation fuel [0%Z] T_one R_zero (9 # 10) 0).
Proof.
  assert (H : 0 <= 0) by apply Qle_refl.
  split; [exact H|].
  exact (proj1 (policy_evaluation_nonpositive_epsilon [0%Z] T_one R_zero
                  (9 # 10) 0 eq_refl eq_refl H)).
Defined.

(** ** Edge cases of the numerical core *)

(** X7.  With no states the first stopping test of [policy_evaluation]
    takes the maximum of an empty array: the function raises
    [ValueError], whatever its other arguments, and so does
    [policy_iteration]. *)
Theorem no_states_ValueError (fuel : nat) (pi : list Z) (T : tensor)
    (R_sa : matrix) (gamma epsilon : Q) :
  length R_sa = 0%nat ->
  policy_evaluation (S fuel) pi T R_sa gamma epsilon = Raise ValueError
  /\ forall (Q_init : matrix) (S_ A_ : list Z),
       policy_iteration (S fuel) Q_init pi (S_, A_, T, R_sa, gamma) epsilon
       = Raise ValueError.
Proof.
  intros HR. destruct R_sa; [|discriminate].
  assert (He : forall f, policy_evaluation (S f) pi T [] gamma epsilon
                         = Raise ValueError) by reflexivity.
  split; [apply He|].
  intros Q_init S_ A_. unfold policy_iteration.
  rewrite iteration_loop_unfold, He. reflexivity.
Qed.

Lemma no_states_ValueError_witness :
  policy_evaluation 1 [] [] [] (9 # 10) default_epsilon = Raise ValueError.
Proof.
  exact (proj1 (no_states_ValueError 0 [] [] [] (9 # 10) default_epsilon
                  eq_refl)).
Defined.

(** ** An action index outside the action space *)

Lemma getitem_Return_range {A : Type} (a : list A) (i : Z) (x : A) :
  getitem a i = Return x ->
  (- Z.of_nat (length a) <= i < Z.of_nat (length a))%Z.
Proof.
  unfold getitem. intros H.
  destruct (Z.ltb_spec i 0) as [Hneg|Hpos].
  - destruct (Z.ltb_spec (i + Z.of_nat (length a)) 0); [discriminate|]. lia.
  - destruct (Z.ltb_spec i 0); [lia|].
    destruct (a !! Z.to_nat i) as [y|] eqn:Hl; [|discriminate].
    apply lookup_lt_Some in Hl. lia.
Qed.

Lemma getitem_IndexError {A : Type} (a : list A) (i : Z) :
  raises_only (fun e => e = IndexError) (getitem a i)
  /\ getitem a i <> OutOfFuel.
Proof.
  unfold getitem, raises_only.
  destruct (_ <? 0)%Z; [split; [intros e [= <-]; reflexivity | discriminate]|].
  destruct (a !! _); split; try discriminate; intros e [= <-]; reflexivity.
Qed.

Lemma setitem_IndexError {A : Type} (a : list A) (i : nat) (x : A) :
  raises_only (fun e => e = IndexError) (setitem a i x)
  /\ setitem a i x <> OutOfFuel.
Proof.
  unfold setitem, raises_only. destruct (i <? length a)%nat;
    split; try discriminate; intros e [= <-]; reflexivity.
Qed.

Lemma bind_IndexError {A B : Type} (m : outcome A) (k : A -> outcome B) :
  raises_only (fun e => e = IndexError) m /\ m <> OutOfFuel ->
  (forall a, raises_only (fun e => e = IndexError) (k a) /\ k a <> OutOfFuel) ->
  raises_only (fun e => e = IndexError) (bind m k) /\ bind m k <> OutOfFuel.
Proof.
  intros [Hm Hf] Hk. destruct m as [a|e|]; cbn [bind].
  - apply Hk.
  - split; [|discriminate]. intros e' [= <-]. apply Hm. reflexivity.
  - congruence.
Qed.

Lemma py_sum_IndexError (f : nat -> outcome Q) (idx : list nat) (acc : Q) :
  (forall i, raises_only (fun e => e = IndexError) (f i) /\ f i <> OutOfFuel) ->
  raises_only (fun e => e = IndexError) (py_sum f idx acc)
  /\ py_sum f idx acc <> OutOfFuel.
Proof.
  intros Hf. revert acc. induction idx as [|i idx IH]; intros acc.
  - split; [intros e H|]; discriminate.
  - cbn [py_sum]. apply bind_IndexError; [apply Hf|]. intros x. apply IH.
Qed.

Lemma for_range_IndexError {St : Type} (idx : list nat)
    (body : nat -> St -> outcome St) (st : St) :
  (forall i x, raises_only (fun e => e = IndexError) (body i x)
               /\ body i x <> OutOfFuel) ->
  raises_only (fun e => e = IndexError) (for_range idx body st)
  /\ for_range idx body st <> OutOfFuel.
Proof.
  intros Hb. revert st. induction idx as [|i idx IH]; intros st.
  - split; [intros e H|]; discriminate.
  - cbn [for_range]. apply bind_IndexError; [apply Hb|]. intros x. apply IH.
Qed.

(** A pass over the states ends, and if with an exception then with
    [IndexError]. *)
Lemma evaluation_sweep_IndexError (pi : list Z) (T : tensor) (R_sa : matrix)
    (gamma : Q) (nS : nat) (V : list Q) :
  raises_only (fun e => e = IndexError) (evaluation_sweep pi T R_sa gamma nS V)
  /\ evaluation_sweep pi T R_sa gamma nS V <> OutOfFuel.
Proof.
  unfold evaluation_sweep. apply for_range_IndexError. intros s x.
  apply bind_IndexError; [apply getitem_IndexError|]. intros a.
  apply bind_IndexError; [|intros y; apply setitem_IndexError].
  unfold backup. apply py_sum_IndexError. intros i. unfold backup_term.
  repeat (apply bind_IndexError; [apply getitem_IndexError|]; intros ?).
  split; [intros e H|]; discriminate.
Qed.

Lemma for_range_Return_body {St : Type} (idx : list nat)
    (body : nat -> St -> outcome St) (i : nat) :
  In i idx ->
  forall st st', for_range idx body st = Return st' ->
  exists x y, body i x = Return y.
Proof.
  induction idx as [|j idx IH]; intros Hin st st' H; [destruct Hin|].
  cbn [for_range] in H. destruct (body j st) as [y| |] eqn:Hb;
    cbn [bind] in H; try discriminate.
  destruct Hin as [->|Hin]; [eauto|]. eapply IH; eassumption.
Qed.

Lemma py_sum_Return_term (f : nat -> outcome Q) (idx : list nat) (i : nat) :
  In i idx ->
  forall acc r, py_sum f idx acc = Return r -> exists x, f i = Return x.
Proof.
  induction idx as [|j idx IH]; intros Hin acc r H; [destruct Hin|].
  cbn [py_sum] in H. destruct (f j) as [y| |] eqn:Hf;
    cbn [bind] in H; try discriminate.
  destruct Hin as [->|Hin]; [eauto|]. eapply IH; eassumption.
Qed.

(** X9.  [policy_evaluation] does not validate the policy: when the
    tensor has the shape of the MDP and the policy holds, for some state,
    an index outside [[-nA, nA)], the first pass over the states raises
    [IndexError]. *)
Theorem policy_evaluation_bad_action (fuel : nat) (pi : list Z) (T : tensor)
    (R_sa : matrix) (gamma epsilon : Q) (s : nat) (a : Z) :
  has_shape3 (length R_sa) (num_actions R_sa) (length R_sa) T = true ->
  (s < length R_sa)%nat ->
  pi !! s = Some a ->
  ~ (- Z.of_nat (num_actions R_sa) <= a < Z.of_nat (num_actions R_sa))%Z ->
  policy_evaluation (S fuel) pi T R_sa gamma epsilon = Raise IndexError.
Proof.
  intros HT Hs Hpi Hbad. unfold policy_evaluation. cbn [evaluation_loop].
  set (V := np_zeros (length R_sa)).
  destruct (evaluation_sweep_IndexError pi T R_sa gamma (length R_sa) V)
    as [Hraise Hfuel].
  destruct (evaluation_sweep pi T R_sa gamma (length R_sa) V)
    as [V_new|e|] eqn:Hsweep.
  - exfalso. unfold evaluation_sweep in Hsweep.
    apply (for_range_Return_body _ _ s) in Hsweep as (x & y & Hb);
      [|apply in_seq; lia].
    rewrite (getitem_nat pi s a Hpi) in Hb. cbn [bind] in Hb.
    destruct (backup T R_sa gamma V (length R_sa) (Z.of_nat s) a)
      as [r| |] eqn:Hbk; cbn [bind] in Hb; try discriminate.
    unfold backup in Hbk.
    apply (py_sum_Return_term _ _ 0%nat) in Hbk as [t Ht];
      [|apply in_seq; lia].
    unfold backup_term in Ht.
    apply has_shape3_rows in HT as [HTn HTr].
    destruct (HTr s Hs) as [HTs _].
    rewrite (getitem_nth [] T s) in Ht by lia. cbn [bind] in Ht.
    destruct (getitem (nth s T []) a) as [Tsa| |] eqn:Hg;
      cbn [bind] in Ht; try discriminate.
    apply getitem_Return_range in Hg. rewrite HTs in Hg. exact (Hbad Hg).
  - rewrite (Hraise e eq_refl). reflexivity.
  - congruence.
Qed.

Lemma policy_evaluation_bad_action_witness :
  policy_evaluation 1 [0%Z; 2%Z] T_spec R_spec (9 # 10) default_epsilon
  = Raise IndexError.
Proof.
  refine (policy_evaluation_bad_action 0 [0%Z; 2%Z] T_spec R_spec (9 # 10)
            default_epsilon 1 2 eq_refl _ eq_refl _).
  - cbn. lia.
  - cbn. lia.
Defined.

(** ** Using the fitted agent *)




(** X11.  [predict_action] does not look at the fitted flag.  After a call
    of [update_agent] that raised, the agent is unfitted but holds the
    zero policy the call started from, and [predict_action] answers every
    observation below [n_obs] with action 0. *)
Theorem predict_action_after_failed_fit (fuel : nat) (self0 self : agent)
    (e : exn) :
  policy_fitted self0 = false ->
  update_agent fuel self0 = (self, Raise e) ->
  policy_fitted self = false
  /\ forall s, (s < n_obs self0)%nat ->
       predict_action self (Z.of_nat s) = Core (Return (0%Z, ∅)).
Proof.
  intros Hf H. unfold update_agent in H. rewrite Hf in H. cbn [negb] in H.
  destruct (policy_iteration _ _ _ _ _) as [[[Qm pi] steps]| |];
    try discriminate.
  injection H as <- _. split; [exact Hf|].
  intros s Hs. unfold predict_action. cbn [pi_ prepare].
  rewrite (getitem_nat _ s 0%Z); [reflexivity|].
  apply lookup_replicate_2. exact Hs.
Qed.

Lemma predict_action_after_failed_fit_witness :
  update_agent 5 (init env_short (9 # 10) 333 "policy.npy")
  = (prepare (init env_short (9 # 10) 333 "policy.npy"), Raise IndexError)
  /\ predict_action (prepare (init env_short (9 # 10) 333 "policy.npy")) 1
     = Core (Return (0%Z, ∅)).
Proof.
  assert (H : update_agent 5 (init env_short (9 # 10) 333 "policy.npy")
              = (prepare (init env_short (9 # 10) 333 "policy.npy"),
                 Raise IndexError)) by (vm_compute; reflexivity).
  split; [exact H|].
  exact (proj2 (predict_action_after_failed_fit 5
                  (init env_short (9 # 10) 333 "policy.npy") _ _ eq_refl H)
           1%nat ltac:(cbn; lia)).
Defined.

(** ** Saving and loading *)

Lemma string_length_app (s1 s2 : string) :
  String.length (s1 ++ s2) = (String.length s1 + String.length s2)%nat.
Proof. induction s1 as [|c s1 IH]; simpl; [reflexivity | rewrite IH; reflexivity]. Qed.

Lemma np_save_path_other (file : string) :
  ends_with_npy file = false -> np_save_path file <> file.
Proof.
  intros H E. unfold np_save_path in E. rewrite H in E.
  apply (f_equal String.length) in E. rewrite string_length_app in E.
  simpl in E. lia.
Qed.

Lemma store_loaded_same (self : agent) (pi : list Z) :
  policy_fitted self = true -> pi_ self = Some pi -> store_loaded self pi = self.
Proof.
  destruct self. cbn. intros -> ->. reflexivity.
Qed.

(** X12.  For a fitted agent holding the policy [pi]: when the configured
    file name ends in [.npy], [load] after [save] returns [pi] and leaves
    the agent as it was; when it does not, [save] writes to another file
    than [load] reads, so [load] after [save] does what [load] before
    [save] does. *)
Theorem save_load_round_trip (self : agent) (w : world) (pi : list Z) :
  policy_fitted self = true ->
  pi_ self = Some pi ->
  (ends_with_npy (filename self) = true ->
   load self (save self w) = (self, Return pi))
  /\ (ends_with_npy (filename self) = false ->
      load self (save self w) = load self w).
Proof.
  intros Hf Hpi. unfold load, np_load, save, np_save.
  rewrite Hf, Hpi. cbn [np_array files]. split; intros Hext.
  - unfold np_save_path. rewrite Hext, lookup_insert_eq.
    rewrite store_loaded_same by assumption. reflexivity.
  - rewrite lookup_insert_ne by (apply np_save_path_other; exact Hext).
    reflexivity.
Qed.

Lemma save_load_round_trip_witness :
  exists self,
    update_agent 3 (init env_spec (9 # 10) 333 "policy.npy") = (self, Return tt)
    /\ load self (save self world_empty) = (self, Return [1%Z; 0%Z]).
Proof.
  set (self := fst (update_agent 3 (init env_spec (9 # 10) 333 "policy.npy"))).
  exists self. split; [vm_compute; reflexivity|].
  exact (proj1 (save_load_round_trip self world_empty [1%Z; 0%Z]
                  eq_refl eq_refl) eq_refl).
Defined.

(** X13.  Loading a stored policy marks the agent fitted without running
    the driver: [Q] and [steps] stay what they were, and a later
    [update_agent] returns at once and leaves the loaded policy in place. *)
Theorem load_then_update_agent (self : agent) (w : world) (a : list Z)
    (fuel : nat) :
  files w !! filename self = Some (NpyInt a) ->
  let self1 := fst (load self w) in
  pi_ self1 = Some a /\ Q_ self1 = Q_ self /\ steps_ self1 = steps_ self
  /\ update_agent fuel self1 = (self1, Return tt).
Proof.
  intros Hfile. unfold load, np_load. rewrite Hfile. cbn.
  repeat split; reflexivity.
Qed.

Lemma load_then_update_agent_witness :
  files world_two !! filename (init env_spec (9 # 10) 333 "policy.npy")
  = Some (NpyInt [0%Z; 1%Z])
  /\ Q_ (fst (load (init env_spec (9 # 10) 333 "policy.npy") world_two)) = None
  /\ update_agent 0 (fst (load (init env_spec (9 # 10) 333 "policy.npy") world_two))
     = (fst (load (init env_spec (9 # 10) 333 "policy.npy") world_two), Return tt).
Proof.
  assert (H : files world_two !! filename (init env_spec (9 # 10) 333 "policy.npy")
              = Some (NpyInt [0%Z; 1%Z])) by reflexivity.
  split; [exact H|].
  destruct (load_then_update_agent (init env_spec (9 # 10) 333 "policy.npy")
              world_two [0%Z; 1%Z] 0 H) as (_ & HQ & _ & Hu).
  split; [exact HQ | exact Hu].
Defined.

(** ** Negative action indices *)

Lemma getitem_wrap {A : Type} (a : list A) (i : Z) :
  (- Z.of_nat (length a) <= i < 0)%Z ->
  getitem a i = getitem a (i + Z.of_nat (length a)).
Proof.
  intros Hi.
  assert (E1 : (i <? 0)%Z = true) by (apply Z.ltb_lt; lia).
  assert (E2 : (i + Z.of_nat (length a) <? 0)%Z = false)
    by (apply Z.ltb_ge; lia).
  unfold getitem. cbv zeta. rewrite E1, !E2. reflexivity.
Qed.

Lemma getitem_map {A B : Type} (f : A -> B) (a : list A) (i : Z) :
  getitem (map f a) i = let* x := getitem a i in Return (f x).
Proof.
  unfold getitem. rewrite length_map.
  destruct (_ <? 0)%Z; [reflexivity|].
  change (map f a) with (f <$> a). rewrite list_lookup_fmap.
  destruct (a !! _); reflexivity.
Qed.

Lemma py_sum_ext (f g : nat -> outcome Q) (idx : list nat) (acc : Q) :
  (forall i, f i = g i) -> py_sum f idx acc = py_sum g idx acc.
Proof.
  intros H. revert acc. induction idx as [|i idx IH]; intros acc;
    [reflexivity|].
  cbn [py_sum]. rewrite H. destruct (g i); cbn [bind]; auto.
Qed.

Lemma for_range_ext {St : Type} (idx : list nat)
    (body body' : nat -> St -> outcome St) (st : St) :
  (forall i x, In i idx -> body i x = body' i x) ->
  for_range idx body st = for_range idx body' st.
Proof.
  revert st. induction idx as [|i idx IH]; intros st H; [reflexivity|].
  cbn [for_range]. rewrite H by (left; reflexivity).
  destruct (body' i st); cbn [bind]; auto.
  apply IH. intros j x Hj. apply H. right. exact Hj.
Qed.

Lemma backup_wrap (T : tensor) (R_sa : matrix) (gamma : Q) (V : list Q)
    (nS nA s : nat) (a : Z) :
  has_shape2 nS nA R_sa = true -> has_shape3 nS nA nS T = true ->
  (s < nS)%nat -> (- Z.of_nat nA <= a)%Z ->
  backup T R_sa gamma V nS (Z.of_nat s) a
  = backup T R_sa gamma V nS (Z.of_nat s) (wrap_action nA a).
Proof.
  intros HR HT Hs Ha. unfold wrap_action.
  destruct (Z.ltb_spec a 0) as [Hneg|_]; [|reflexivity].
  apply has_shape2_rows in HR as [HRn HRr].
  apply has_shape3_rows in HT as [HTn HTr].
  destruct (HTr s Hs) as [HTs _].
  unfold backup. apply py_sum_ext. intros i. unfold backup_term.
  rewrite (getitem_nth [] T s) by lia. cbn [bind].
  rewrite (getitem_wrap (nth s T []) a) by (rewrite HTs; lia). rewrite HTs.
  destruct (getitem (nth s T []) (a + Z.of_nat nA)); cbn [bind]; try reflexivity.
  destruct (getitem a0 (Z.of_nat i)); cbn [bind]; try reflexivity.
  rewrite (getitem_nth [] R_sa s) by lia. cbn [bind].
  rewrite (getitem_wrap (nth s R_sa []) a) by (rewrite HRr by lia; lia).
  rewrite HRr by lia. reflexivity.
Qed.

(** X14.  A negative action index is accepted as numpy reads it: on
    arrays of the MDP's shapes, a policy whose entries are all at least
    [-nA] is evaluated exactly as the policy in which every negative
    entry [a] is replaced by [nA + a]. *)
Theorem policy_evaluation_negative_actions (fuel : nat) (pi : list Z)
    (T : tensor) (R_sa : matrix) (gamma epsilon : Q) :
  has_shape2 (length R_sa) (num_actions R_sa) R_sa = true ->
  has_shape3 (length R_sa) (num_actions R_sa) (length R_sa) T = true ->
  Forall (fun a => (- Z.of_nat (num_actions R_sa) <= a)%Z) pi ->
  policy_evaluation fuel pi T R_sa gamma epsilon
  = policy_evaluation fuel (map (wrap_action (num_actions R_sa)) pi)
      T R_sa gamma epsilon.
Proof.
  intros HR HT Hpi. unfold policy_evaluation.
  generalize (np_zeros (length R_sa)) as V.
  induction fuel as [|fuel IH]; intros V; [reflexivity|].
  cbn [evaluation_loop].
  assert (Hsweep : evaluation_sweep pi T R_sa gamma (length R_sa) V
                   = evaluation_sweep (map (wrap_action (num_actions R_sa)) pi)
                       T R_sa gamma (length R_sa) V).
  { unfold evaluation_sweep. apply for_range_ext. intros s x Hs.
    apply in_seq in Hs. rewrite getitem_map.
    destruct (getitem pi (Z.of_nat s)) as [a| |] eqn:Hg; cbn [bind];
      try reflexivity.
    rewrite <- (backup_wrap T R_sa gamma V (length R_sa) (num_actions R_sa));
      [reflexivity | assumption | assumption | lia |].
    unfold getitem in Hg.
    destruct (_ <? 0)%Z; [discriminate|].
    destruct (pi !! _) as [y|] eqn:Hl; [|discriminate].
    injection Hg as <-. rewrite Forall_lookup in Hpi. eapply Hpi. exact Hl. }
  rewrite Hsweep. clear Hsweep.
  destruct (evaluation_sweep _ _ _ _ _ _) as [V_new| |]; cbn [bind];
    try reflexivity.
  destruct (np_max _) as [d| |]; cbn [bind]; try reflexivity.
  destruct (Qltb d epsilon); [reflexivity | apply IH].
Qed.

Lemma policy_evaluation_negative_actions_witness :
  policy_evaluation 3 [(-1)%Z; (-2)%Z] T_spec R_spec (9 # 10) default_epsilon
  = policy_evaluation 3 [1%Z; 0%Z] T_spec R_spec (9 # 10) default_epsilon.
Proof.
  refine (policy_evaluation_negative_actions 3 [(-1)%Z; (-2)%Z] T_spec R_spec
            (9 # 10) default_epsilon eq_refl eq_refl _).
  repeat constructor; cbn; lia.
Defined.

(** ** No exception on valid input *)

Lemma policy_evaluation_valid_outcome (fuel : nat) (pi : list Z) (T : tensor)
    (R_sa : matrix) (gamma epsilon : Q) :
  valid_mdp T R_sa = true ->
  valid_policy (length R_sa) (num_actions R_sa) pi = true ->
  (exists V, policy_evaluation fuel pi T R_sa gamma epsilon = Return V
             /\ length V = length R_sa)
  \/ policy_evaluation fuel pi T R_sa gamma epsilon = OutOfFuel.
Proof.
  intros Hmdp Hpi. unfold policy_evaluation.
  destruct (evaluation_loop_outcome pi T R_sa gamma epsilon Hmdp Hpi fuel
              (np_zeros (length R_sa)) (length_replicate _ _))
    as [(j & _ & Hj & _)|[Hout _]]; [left | right; exact Hout].
  eexists. split; [exact Hj|].
  eapply evaluation_loop_length; [|exact Hj]. apply length_replicate.
Qed.

Lemma iteration_loop_never_raises (T : tensor) (R_sa : matrix)
    (gamma epsilon : Q) (fuel : nat) :
  valid_mdp T R_sa = true ->
  forall (Q0 : matrix) (pi : list Z) (steps : nat) (e : exn),
    valid_policy (length R_sa) (num_actions R_sa) pi = true ->
    iteration_loop fuel Q0 pi T R_sa gamma epsilon steps <> Raise e.
Proof.
  intros Hmdp.
  destruct (valid_mdp_inv T R_sa Hmdp) as (HnS & HnA & HR & HT & _).
  induction fuel as [|fuel IH]; intros Q0 pi steps e Hpi; [discriminate|].
  rewrite iteration_loop_unfold.
  destruct (policy_evaluation_valid_outcome (S fuel) pi T R_sa gamma epsilon
              Hmdp Hpi) as [(V & -> & HV)| ->]; [|discriminate].
  cbn [bind].
  pose proof (policy_improvement_returns V T R_sa gamma HR HT HV HnA) as Hi.
  cbv zeta in Hi. rewrite Hi. cbn [bind].
  destruct (np_array_equal pi _); [discriminate|].
  apply IH. eapply policy_improvement_valid. exact Hi.
Qed.

(** X15.  On a valid MDP, from a valid initial policy, [policy_iteration]
    raises no exception, whatever [gamma] and [epsilon] are; neither does
    [update_agent] on an unfitted agent whose environment is a valid MDP
    with [n_obs] states. *)
Theorem valid_input_never_raises (T : tensor) (R_sa : matrix)
    (gamma epsilon : Q) (pi_init : list Z) :
  valid_mdp T R_sa = true ->
  valid_policy (length R_sa) (num_actions R_sa) pi_init = true ->
  (forall fuel (Q_init : matrix) (S_ A_ : list Z) (e : exn),
      policy_iteration fuel Q_init pi_init (S_, A_, T, R_sa, gamma) epsilon
      <> Raise e)
  /\ (forall fuel (self : agent) (e : exn),
        policy_fitted self = false ->
        get_transition_matrix (env self) = T ->
        get_reward_per_action (env self) = R_sa ->
        n_obs self = length R_sa ->
        snd (update_agent fuel self) <> Raise e).
Proof.
  intros Hmdp Hpi. split.
  - intros fuel Q_init S_ A_ e. unfold policy_iteration.
    apply iteration_loop_never_raises; assumption.
  - intros fuel self e Hf HT HR Hn. unfold update_agent.
    rewrite Hf, HT, HR, Hn. cbn [negb].
    destruct (valid_mdp_inv T R_sa Hmdp) as (_ & HnA & _).
    pose proof (iteration_loop_never_raises T R_sa (gamma_ self)
                  default_epsilon fuel Hmdp
                  (np_zeros2 (length R_sa) (n_actions self))
                  (np_zeros_int (length R_sa)) 0%nat) as Hnr.
    unfold policy_iteration.
    destruct (iteration_loop _ _ _ _ _ _ _ _) as [[[Qm pi] steps]|e'|];
      cbn [snd]; try discriminate.
    exfalso. apply (Hnr e'); [|reflexivity].
    unfold valid_policy, np_zeros_int. rewrite length_replicate, Nat.eqb_refl.
    cbn [andb]. apply forallb_forall. intros a Ha.
    apply list_elem_of_In, elem_of_replicate in Ha as [-> _].
    apply andb_true_intro. split; [reflexivity | apply Z.ltb_lt; lia].
Qed.

Lemma valid_input_never_raises_witness :
  valid_mdp T_cycle R_cycle = true
  /\ valid_policy 2 2 [0%Z; 0%Z] = true
  /\ forall fuel e,
       policy_iteration fuel [] [0%Z; 0%Z] ([], [], T_cycle, R_cycle, 2)
         0 <> Raise e.
Proof.
  split; [reflexivity|]. split; [reflexivity|].
  intros fuel e.
  exact (proj1 (valid_input_never_raises T_cycle R_cycle 2 0 [0%Z; 0%Z]
                  eq_refl eq_refl) fuel [] [] [] e).
Defined.

(** ** The order of binary64 numbers *)

Section SpecOrder.
Import SpecFloat.

Lemma SFcompare_refl (x : spec_float) :
  x <> S754_nan -> SFcompare x x = Some Eq.
Proof.
  destruct x as [s|s| |s m e]; intros H; try congruence; simpl.
  - reflexivity.
  - destruct s; reflexivity.
  - rewrite Z.compare_refl. rewrite Pos.compare_cont_refl. destruct s; reflexivity.
Qed.

Lemma SFcompare_nan_l (x y : spec_float) :
  SFcompare x y <> None -> x <> S754_nan /\ y <> S754_nan.
Proof.
  destruct x, y; simpl; intros H; split; congruence.
Qed.

Lemma SFcompare_nan_r (x y : spec_float) :
  x <> S754_nan -> y <> S754_nan -> SFcompare x y <> None.
Proof.
  destruct x as [s1|s1| |s1 m1 e1], y as [s2|s2| |s2 m2 e2];
    intros Hx Hy; try congruence; simpl;
    repeat match goal with
           | |- context [if ?b then _ else _] => destruct b
           | |- context [match ?c with Eq => _ | Lt => _ | Gt => _ end] =>
               destruct c
           end; discriminate.
Qed.

Lemma SFcompare_total (x y : spec_float) :
  x <> S754_nan -> y <> S754_nan ->
  SFcompare x y = Some Gt -> SFcompare y x = Some Lt.
Proof.
  destruct x as [s1|s1| |s1 m1 e1], y as [s2|s2| |s2 m2 e2];
    intros Hx Hy; try congruence; simpl;
    try (destruct s1; try destruct s2; simpl; congruence);
    try (destruct s2; simpl; congruence).
  change (Pos.compare_cont Eq) with Pos.compare.
  destruct s1, s2; simpl; try congruence.
  all: destruct (Z.compare_spec e1 e2), (Z.compare_spec e2 e1);
    try congruence; try lia; subst.
  all: destruct (Pos.compare_spec m1 m2), (Pos.compare_spec m2 m1);
    simpl; try congruence; try lia.
Qed.

Lemma SFcompare_le_lt_trans (a b c : spec_float) :
  (SFcompare a b = Some Lt \/ SFcompare a b = Some Eq) ->
  SFcompare b c = Some Lt ->
  SFcompare a c = Some Lt.
Proof.
  destruct a as [s1|s1| |s1 m1 e1], b as [s2|s2| |s2 m2 e2],
           c as [s3|s3| |s3 m3 e3]; simpl; intros Hab Hbc;
    try (destruct Hab; congruence); try congruence;
    try (destruct s1; try destruct s2; try destruct s3; simpl in *;
         destruct Hab; congruence).
  all: change (Pos.compare_cont Eq) with Pos.compare in *.
  all: destruct s1, s2, s3; simpl in *;
    try (destruct Hab; congruence); try congruence.
  all: destruct (Z.compare_spec e1 e2), (Z.compare_spec e2 e3),
         (Z.compare_spec e1 e3);
    try (destruct Hab; congruence); try congruence; try lia; subst.
  all: destruct (Pos.compare_spec m1 m2), (Pos.compare_spec m2 m3),
         (Pos.compare_spec m1 m3); simpl in *;
    try (destruct Hab; congruence); try congruence; try lia.
Qed.
End SpecOrder.

Section FloatOrder.
Local Open Scope float_scope.

Lemma is_nan_Prim2SF (x : float) :
  is_nan x = false <-> Prim2SF x <> SpecFloat.S754_nan.
Proof.
  unfold is_nan. rewrite FloatAxioms.eqb_spec. unfold SpecFloat.SFeqb. split.
  - intros H E. rewrite E in H. discriminate.
  - intros H. rewrite SFcompare_refl by exact H. reflexivity.
Qed.

Lemma leb_not_nan (x y : float) :
  (x <=? y) = true -> is_nan x = false /\ is_nan y = false.
Proof.
  rewrite FloatAxioms.leb_spec. unfold SpecFloat.SFleb. intros H.
  destruct (SFcompare_nan_l (Prim2SF x) (Prim2SF y)) as [Hx Hy].
  { destruct (SpecFloat.SFcompare _ _); discriminate. }
  split; apply is_nan_Prim2SF; assumption.
Qed.

Lemma ltb_not_nan (x y : float) :
  (x <? y) = true -> is_nan x = false /\ is_nan y = false.
Proof.
  rewrite FloatAxioms.ltb_spec. unfold SpecFloat.SFltb. intros H.
  destruct (SFcompare_nan_l (Prim2SF x) (Prim2SF y)) as [Hx Hy].
  { destruct (SpecFloat.SFcompare _ _); discriminate. }
  split; apply is_nan_Prim2SF; assumption.
Qed.

Lemma leb_refl (x : float) : is_nan x = false -> (x <=? x) = true.
Proof.
  intros H. apply is_nan_Prim2SF in H.
  rewrite FloatAxioms.leb_spec. unfold SpecFloat.SFleb.
  rewrite SFcompare_refl by exact H. reflexivity.
Qed.

Lemma ltb_leb (x y : float) : (x <? y) = true -> (x <=? y) = true.
Proof.
  rewrite FloatAxioms.ltb_spec, FloatAxioms.leb_spec. unfold SpecFloat.SFltb, SpecFloat.SFleb.
  destruct (SpecFloat.SFcompare _ _) as [[| |]|]; congruence.
Qed.

Lemma not_leb_ltb (x y : float) :
  is_nan x = false -> is_nan y = false ->
  (x <=? y) = false -> (y <? x) = true.
Proof.
  intros Hx Hy. apply is_nan_Prim2SF in Hx, Hy.
  rewrite FloatAxioms.ltb_spec, FloatAxioms.leb_spec. unfold SpecFloat.SFltb, SpecFloat.SFleb.
  destruct (SpecFloat.SFcompare (Prim2SF x) (Prim2SF y)) as [[| |]|] eqn:E;
    try discriminate; intros _.
  - rewrite (SFcompare_total _ _ Hx Hy E). reflexivity.
  - exfalso. revert E. apply SFcompare_nan_r; assumption.
Qed.

Lemma leb_ltb_trans (x y z : float) :
  (x <=? y) = true -> (y <? z) = true -> (x <? z) = true.
Proof.
  rewrite !FloatAxioms.ltb_spec, FloatAxioms.leb_spec. unfold SpecFloat.SFltb, SpecFloat.SFleb.
  intros Hxy Hyz.
  rewrite (SFcompare_le_lt_trans (Prim2SF x) (Prim2SF y) (Prim2SF z));
    [reflexivity | |].
  - destruct (SpecFloat.SFcompare (Prim2SF x) (Prim2SF y)) as [[| |]|];
      try discriminate; auto.
  - destruct (SpecFloat.SFcompare (Prim2SF y) (Prim2SF z)) as [[| |]|];
      try discriminate; auto.
Qed.

Lemma ltb_trans (x y z : float) :
  (x <? y) = true -> (y <? z) = true -> (x <? z) = true.
Proof. intros Hxy. apply leb_ltb_trans. apply ltb_leb. exact Hxy. Qed.
End FloatOrder.
Section FloatMax.
Local Open Scope float_scope.

(** [maximum] is one of its arguments. *)
Lemma maximum_cases (x y : float) :
  Binary64.maximum x y = x \/ Binary64.maximum x y = y.
Proof. unfold Binary64.maximum. destruct (_ || _); auto. Qed.

Lemma maximum_ltb (x y c : float) :
  (Binary64.maximum x y <? c) = true <-> (x <? c) = true /\ (y <? c) = true.
Proof.
  split.
  - unfold Binary64.maximum.
    destruct (y <=? x) eqn:Hle; cbn [orb].
    + intros Hx. split; [exact Hx|]. exact (leb_ltb_trans _ _ _ Hle Hx).
    + destruct (is_nan x) eqn:Hn.
      * intros Hx. apply ltb_not_nan in Hx as [Hx _]. congruence.
      * intros Hy. split; [|exact Hy].
        apply (ltb_trans _ y); [|exact Hy].
        apply not_leb_ltb; [|exact Hn|exact Hle].
        apply ltb_not_nan in Hy as [Hy _]. exact Hy.
  - intros [Hx Hy]. destruct (maximum_cases x y) as [-> | ->]; assumption.
Qed.

Lemma fold_maximum_ltb (rest : list float) (x c : float) :
  (fold_left Binary64.maximum rest x <? c) = true
  <-> (x <? c) = true /\ Forall (fun y => (y <? c) = true) rest.
Proof.
  revert x. induction rest as [|y rest IH]; intros x; cbn [fold_left].
  - split; [intros H; split; [exact H | constructor] | intros [H _]; exact H].
  - split.
    + intros H. apply IH in H as [Hm Hr]. apply maximum_ltb in Hm as [Hx Hy].
      split; [exact Hx|]. constructor; assumption.
    + intros [Hx Hr]. inversion Hr as [|? ? Hy Hr']; subst.
      apply IH. split; [|exact Hr']. apply maximum_ltb. split; assumption.
Qed.

Lemma nth_abs_sub_float (W V : list float) (s : nat) :
  (s < length W)%nat -> (s < length V)%nat ->
  nth s (Binary64.np_abs (Binary64.np_sub W V)) 0
  = abs (Binary64.V_at W s - Binary64.V_at V s).
Proof.
  unfold Binary64.V_at. revert V s.
  induction W as [|w W IH]; intros [|v V] [|s]; simpl;
    intros H1 H2; try lia; [reflexivity|].
  apply IH; lia.
Qed.

(** [np.max(np.abs(V_new - V)) < c] holds exactly when every state's
    change is below [c]; a NaN among the changes makes it fail. *)
Lemma np_max_change_ltb (n : nat) (W V : list float) (c : float) :
  (0 < n)%nat -> length W = n -> length V = n ->
  exists d,
    Binary64.np_max (Binary64.np_abs (Binary64.np_sub W V)) = Return d
    /\ ((d <? c) = true <->
        forall s, (s < n)%nat ->
          (abs (Binary64.V_at W s - Binary64.V_at V s) <? c) = true).
Proof.
  intros Hn HW HV.
  assert (HL : length (Binary64.np_abs (Binary64.np_sub W V)) = n).
  { unfold Binary64.np_abs, Binary64.np_sub.
    rewrite length_map, length_zip_with. lia. }
  pose proof (fun s => nth_abs_sub_float W V s) as Hnth.
  destruct (Binary64.np_abs (Binary64.np_sub W V)) as [|x l] eqn:E;
    [simpl in HL; lia|].
  exists (fold_left Binary64.maximum l x). split; [reflexivity|].
  rewrite fold_maximum_ltb, <- (Forall_cons (fun y => (y <? c) = true)).
  rewrite (Forall_nth _ 0). rewrite HL.
  split; intros H s Hs; specialize (H s Hs).
  - rewrite Hnth in H by lia. exact H.
  - rewrite Hnth by lia. exact H.
Qed.
End FloatMax.
(** ** The loops of the binary64 routines on arrays of the right shapes *)

Section FloatLoops.
Local Open Scope float_scope.

Lemma py_sum_fold (f : nat -> outcome float) (g : nat -> float)
    (idx : list nat) (acc : float) :
  (forall i, In i idx -> f i = Return (g i)) ->
  Binary64.py_sum f idx acc
  = Return (fold_left (fun acc i => acc + g i) idx acc).
Proof.
  revert acc. induction idx as [|i idx IH]; intros acc H; [reflexivity|].
  cbn [Binary64.py_sum fold_left]. rewrite (H i) by (left; reflexivity).
  cbn [bind]. apply IH. intros j Hj. apply H. right. exact Hj.
Qed.

(** On arrays of the right shapes the sum of the source is the rounded
    right-hand side of the Bellman equation. *)
Lemma backup_shapes_float (T : Binary64.tensor) (R_sa : Binary64.matrix)
    (gamma : float) (V : list float) (nS nA s a : nat) :
  has_shape2 nS nA R_sa = true -> has_shape3 nS nA nS T = true ->
  length V = nS -> (s < nS)%nat -> (a < nA)%nat ->
  Binary64.backup T R_sa gamma V nS (Z.of_nat s) (Z.of_nat a)
  = Return (Binary64.bellman_rhs T R_sa gamma V nS s a).
Proof.
  intros HR HT HV Hs Ha.
  apply has_shape2_rows in HR as [HRn HRr].
  apply has_shape3_rows in HT as [HTn HTr].
  destruct (HTr s Hs) as [HTs HTsa].
  unfold Binary64.backup, Binary64.bellman_rhs.
  apply (py_sum_fold _
    (fun i => Binary64.T_at T s a i
              * (Binary64.R_at R_sa s a + gamma * Binary64.V_at V i))).
  intros i Hi. apply in_seq in Hi.
  unfold Binary64.backup_term, Binary64.T_at, Binary64.R_at, Binary64.V_at.
  rewrite (getitem_nth [] T) by lia. cbn [bind].
  rewrite (getitem_nth [] (nth s T [])) by lia. cbn [bind].
  rewrite (getitem_nth 0 (nth a (nth s T []) []))
    by (rewrite HTsa; lia). cbn [bind].
  rewrite (getitem_nth [] R_sa) by lia. cbn [bind].
  rewrite (getitem_nth 0 (nth s R_sa [])) by (rewrite HRr; lia). cbn [bind].
  rewrite (getitem_nth 0 V) by lia. cbn [bind].
  reflexivity.
Qed.

(** The loop over the states computes the synchronous update: every
    entry of [V_new] is computed from the old [V]. *)
Lemma evaluation_sweep_shapes_float (pi : list Z) (T : Binary64.tensor)
    (R_sa : Binary64.matrix) (gamma : float) (nS nA : nat) (V : list float) :
  has_shape2 nS nA R_sa = true -> has_shape3 nS nA nS T = true ->
  valid_policy nS nA pi = true -> length V = nS ->
  Binary64.evaluation_sweep pi T R_sa gamma nS V
  = Return (Binary64.bellman_operator pi T R_sa gamma nS V).
Proof.
  intros HR HT Hpi HV.
  unfold Binary64.evaluation_sweep, Binary64.bellman_operator.
  apply for_range_setitem.
  - intros s st Hs.
    destruct (valid_policy_at nS nA pi s Hpi Hs) as (_ & Ha & Hg).
    rewrite Hg. cbn [bind].
    rewrite (backup_shapes_float T R_sa gamma V nS nA) by assumption.
    reflexivity.
  - apply length_replicate.
Qed.

Lemma fill_Q_shapes_float (V : list float) (T : Binary64.tensor)
    (R_sa : Binary64.matrix) (gamma : float) (nS nA : nat) :
  has_shape2 nS nA R_sa = true -> has_shape3 nS nA nS T = true ->
  length V = nS ->
  Binary64.fill_Q V T R_sa gamma nS nA (Binary64.np_zeros2 nS nA)
  = Return (map (fun s => map (Binary64.bellman_rhs T R_sa gamma V nS s)
                              (seq 0 nA))
                (seq 0 nS)).
Proof.
  intros HR HT HV. unfold Binary64.fill_Q. apply for_range_fill.
  - apply length_replicate.
  - intros s Hs.
    apply for_range_fill_row with (row := Binary64.np_zeros nA).
    + rewrite lookup_app_r by (rewrite length_map, length_seq; lia).
      rewrite length_map, length_seq, Nat.sub_diag.
      rewrite lookup_drop, Nat.add_0_r. unfold Binary64.np_zeros2.
      apply lookup_replicate_2. exact Hs.
    + apply length_replicate.
    + intros a Ha.
      apply (backup_shapes_float T R_sa gamma V nS nA); assumption.
Qed.

Lemma bellman_operator_length_float (pi : list Z) (T : Binary64.tensor)
    (R_sa : Binary64.matrix) (gamma : float) (nS : nat) (V : list float) :
  length (Binary64.bellman_operator pi T R_sa gamma nS V) = nS.
Proof.
  unfold Binary64.bellman_operator. rewrite length_map, length_seq. reflexivity.
Qed.
End FloatLoops.
(** ** Policy evaluation in binary64 *)

Lemma valid_mdp_inv_float (T : Binary64.tensor) (R_sa : Binary64.matrix) :
  Binary64.valid_mdp T R_sa = true ->
  (0 < length R_sa)%nat /\ (0 < Binary64.num_actions R_sa)%nat
  /\ has_shape2 (length R_sa) (Binary64.num_actions R_sa) R_sa = true
  /\ has_shape3 (length R_sa) (Binary64.num_actions R_sa) (length R_sa) T
     = true.
Proof.
  unfold Binary64.valid_mdp, Binary64.num_actions.
  destruct (shape2 R_sa) as [nS nA] eqn:E. unfold shape2 in E.
  injection E as <- <-. intros H.
  repeat (apply andb_prop in H as [H ?]).
  apply Nat.ltb_lt in H.
  repeat split; try assumption. apply Nat.ltb_lt. assumption.
Qed.

Section EvaluationBinary64.
Variables (pi : list Z) (T : Binary64.tensor) (R_sa : Binary64.matrix)
  (gamma epsilon : float).
Hypothesis Hmdp : Binary64.valid_mdp T R_sa = true.
Hypothesis Hpi :
  valid_policy (length R_sa) (Binary64.num_actions R_sa) pi = true.

Let nS := length R_sa.
Let B := Binary64.bellman_operator pi T R_sa gamma nS.
Let within := Binary64.within_tolerance pi T R_sa gamma epsilon.
Let loop := fun fuel => Binary64.evaluation_loop fuel pi T R_sa gamma epsilon nS.

Lemma iter_B_length_float (k : nat) (V : list float) :
  length V = nS -> length (Nat.iter k B V) = nS.
Proof.
  intros HV. destruct k as [|k]; [exact HV|].
  simpl. apply bellman_operator_length_float.
Qed.

(** One pass of the loop body: the update and the stopping test. *)
Lemma evaluation_loop_step_float (fuel : nat) (V : list float) :
  length V = nS ->
  exists d,
    (PrimFloat.ltb d epsilon = true <-> within V)
    /\ loop (S fuel) V
       = if PrimFloat.ltb d epsilon then Return V else loop fuel (B V).
Proof.
  intros HV.
  destruct (valid_mdp_inv_float T R_sa Hmdp) as (HnS & HnA & HR & HT).
  destruct (np_max_change_ltb nS (B V) V epsilon HnS) as (d & Hd & Hlt);
    [apply bellman_operator_length_float | exact HV |].
  exists d. split; [exact Hlt|].
  unfold loop. cbn [Binary64.evaluation_loop].
  rewrite (evaluation_sweep_shapes_float pi T R_sa gamma nS
             (Binary64.num_actions R_sa)) by assumption.
  cbn [bind]. fold B. rewrite Hd. reflexivity.
Qed.

Lemma within_dec_float (V : list float) :
  length V = nS -> within V \/ ~ within V.
Proof.
  intros HV.
  destruct (evaluation_loop_step_float 0 V HV) as (d & Hlt & _).
  destruct (PrimFloat.ltb d epsilon) eqn:E.
  - left. apply Hlt. reflexivity.
  - right. intros H. apply Hlt in H. discriminate.
Qed.

(** Whatever [gamma] and [epsilon] are, the loop either returns the first
    iterate that passes the stopping test or is still running. *)
Lemma evaluation_loop_outcome_float (fuel : nat) :
  forall V : list float,
    length V = nS ->
    (exists j, (j < fuel)%nat
       /\ loop fuel V = Return (Nat.iter j B V)
       /\ within (Nat.iter j B V)
       /\ forall i, (i < j)%nat -> ~ within (Nat.iter i B V))
    \/ (loop fuel V = OutOfFuel
        /\ forall i, (i < fuel)%nat -> ~ within (Nat.iter i B V)).
Proof.
  induction fuel as [|fuel IH]; intros V HV.
  - right. split; [reflexivity | intros; lia].
  - destruct (evaluation_loop_step_float fuel V HV) as (d & Hlt & Hloop).
    rewrite Hloop.
    destruct (PrimFloat.ltb d epsilon) eqn:Ht.
    + left. exists 0%nat.
      split; [lia|]. split; [reflexivity|].
      split; [apply Hlt; reflexivity | intros; lia].
    + assert (Hnot : ~ within V).
      { intros Hw. apply Hlt in Hw. discriminate. }
      destruct (IH (B V)) as [(j & Hj & Hrun & Hw & Hmin)|[Hout Hall]].
      * apply bellman_operator_length_float.
      * left. exists (S j). rewrite Nat.iter_succ_r.
        split; [lia|]. split; [exact Hrun|]. split; [exact Hw|].
        intros [|i] Hi; [exact Hnot|].
        rewrite Nat.iter_succ_r. apply Hmin. lia.
      * right. split; [exact Hout|].
        intros [|i] Hi; [exact Hnot|].
        rewrite Nat.iter_succ_r. apply Hall. lia.
Qed.

(** As soon as some iterate passes the stopping test the loop returns,
    with any fuel above the index of the first such iterate. *)
Lemma evaluation_loop_returns_float (k : nat) (V : list float) :
  length V = nS -> within (Nat.iter k B V) ->
  exists j, (j <= k)%nat
    /\ forall fuel, (j < fuel)%nat -> loop fuel V = Return (Nat.iter j B V).
Proof.
  intros HV Hk.
  destruct (evaluation_loop_outcome_float (S k) V HV)
    as [(j & Hj & _ & Hw & Hmin)|[_ Hall]];
    [|exfalso; exact (Hall k ltac:(lia) Hk)].
  exists j. split; [lia|]. intros fuel Hfuel.
  destruct (evaluation_loop_outcome_float fuel V HV)
    as [(j' & Hj' & Hrun' & Hw' & Hmin')|[_ Hall]];
    [|exfalso; exact (Hall j Hfuel Hw)].
  destruct (Nat.lt_trichotomy j j') as [Hlt|[->|Hgt]].
  - exfalso. exact (Hmin' j Hlt Hw).
  - exact Hrun'.
  - exfalso. exact (Hmin j' Hgt Hw').
Qed.
End EvaluationBinary64.

(** ** Runs of the binary64 loop that never stop *)

Section Advance.
Variables (pi : list Z) (T : Binary64.tensor) (R_sa : Binary64.matrix)
  (gamma epsilon : float) (nS : nat).

Let loop := fun fuel => Binary64.evaluation_loop fuel pi T R_sa gamma epsilon nS.
Let adv := fun k => Binary64.advance k pi T R_sa gamma epsilon nS.

Lemma advance_loop (k : nat) :
  forall (V W : list float) (fuel : nat),
    adv k V = Some W -> loop (k + fuel) V = loop fuel W.
Proof.
  unfold adv, loop.
  induction k as [|k IH]; intros V W fuel H.
  - injection H as <-. reflexivity.
  - cbn [Binary64.advance] in H. cbn [Nat.add Binary64.evaluation_loop].
    destruct (Binary64.evaluation_sweep pi T R_sa gamma nS V) as [V_new| |];
      try discriminate.
    cbn [bind].
    destruct (Binary64.np_max _) as [d| |]; try discriminate.
    cbn [bind]. destruct (PrimFloat.ltb d epsilon); [discriminate|].
    apply IH. exact H.
Qed.

Lemma advance_out_of_fuel (k : nat) :
  forall (V W : list float) (fuel : nat),
    adv k V = Some W -> (fuel <= k)%nat -> loop fuel V = OutOfFuel.
Proof.
  unfold adv, loop.
  induction k as [|k IH]; intros V W fuel H Hle.
  - replace fuel with 0%nat by lia. reflexivity.
  - destruct fuel as [|fuel]; [reflexivity|].
    cbn [Binary64.advance] in H. cbn [Binary64.evaluation_loop].
    destruct (Binary64.evaluation_sweep pi T R_sa gamma nS V) as [V_new| |];
      try discriminate.
    cbn [bind].
    destruct (Binary64.np_max _) as [d| |]; try discriminate.
    cbn [bind]. destruct (PrimFloat.ltb d epsilon); [discriminate|].
    apply (IH V_new W); [exact H | lia].
Qed.

(** A run that comes back, after passes that all fail the stopping
    test, to an array it has held before never stops. *)
Lemma advance_lasso (k1 k2 : nat) (V A : list float) :
  adv k1 V = Some A -> (0 < k2)%nat -> adv k2 A = Some A ->
  forall fuel, loop fuel V = OutOfFuel.
Proof.
  intros H1 Hk2 H2.
  assert (Hcycle : forall fuel, loop fuel A = OutOfFuel).
  { intros fuel. induction fuel as [fuel IH] using lt_wf_ind.
    destruct (Nat.le_gt_cases fuel k2) as [Hle|Hgt].
    - exact (advance_out_of_fuel k2 A A fuel H2 Hle).
    - replace fuel with (k2 + (fuel - k2))%nat by lia.
      rewrite (advance_loop k2 A A _ H2). apply IH. lia. }
  intros fuel.
  destruct (Nat.le_gt_cases fuel k1) as [Hle|Hgt].
  - exact (advance_out_of_fuel k1 V A fuel H1 Hle).
  - replace fuel with (k1 + (fuel - k1))%nat by lia.
    rewrite (advance_loop k1 V A _ H1). apply Hcycle.
Qed.
End Advance.
(** C1, amended.  In binary64, on a valid MDP and a policy with one
    in-range action per state, for every [gamma] and [epsilon]:
    one pass of the loop over the states is the synchronous update [B]
    of all states from the previous [V]; if some iterate of [B] from the
    zero vector passes the stopping test, [policy_evaluation] returns the
    first such iterate; and whenever it returns [V], [V] is that first
    iterate and one more update moves every state by less than
    [epsilon].  That an iterate passes the test is not claimed: see
    [policy_evaluation_rounding_cycle]. *)
Theorem policy_evaluation_first_within_tolerance (pi : list Z)
    (T : Binary64.tensor) (R_sa : Binary64.matrix) (gamma epsilon : float) :
  Binary64.valid_mdp T R_sa = true ->
  valid_policy (length R_sa) (Binary64.num_actions R_sa) pi = true ->
  let nS := length R_sa in
  let B := Binary64.bellman_operator pi T R_sa gamma nS in
  let V0 := Binary64.np_zeros nS in
  (forall V, length V = nS ->
     Binary64.evaluation_sweep pi T R_sa gamma nS V = Return (B V))
  /\ (forall k,
        Binary64.within_tolerance pi T R_sa gamma epsilon (Nat.iter k B V0) ->
        exists j, (j <= k)%nat
          /\ forall fuel, (j < fuel)%nat ->
               Binary64.policy_evaluation fuel pi T R_sa gamma epsilon
               = Return (Nat.iter j B V0))
  /\ (forall fuel V,
        Binary64.policy_evaluation fuel pi T R_sa gamma epsilon = Return V ->
        exists k, (k < fuel)%nat /\ V = Nat.iter k B V0
          /\ Binary64.within_tolerance pi T R_sa gamma epsilon V
          /\ forall i, (i < k)%nat ->
               ~ Binary64.within_tolerance pi T R_sa gamma epsilon
                   (Nat.iter i B V0)).
Proof.
  intros Hmdp Hpi nS B V0.
  destruct (valid_mdp_inv_float T R_sa Hmdp) as (HnS & HnA & HR & HT).
  assert (HV0 : length V0 = nS) by apply length_replicate.
  split; [|split].
  - intros V HV.
    apply (evaluation_sweep_shapes_float pi T R_sa gamma nS
             (Binary64.num_actions R_sa)); assumption.
  - intros k Hk. unfold Binary64.policy_evaluation.
    exact (evaluation_loop_returns_float pi T R_sa gamma epsilon Hmdp Hpi
             k V0 HV0 Hk).
  - intros fuel V. unfold Binary64.policy_evaluation. fold nS V0.
    destruct (evaluation_loop_outcome_float pi T R_sa gamma epsilon Hmdp Hpi
                fuel V0 HV0) as [(j & Hj & Hrun & Hw & Hmin)|[Hout _]].
    + fold nS B in Hrun, Hw, Hmin. rewrite Hrun. intros [= <-].
      exists j. auto.
    + fold nS in Hout. rewrite Hout. discriminate.
Qed.

Lemma policy_evaluation_first_within_tolerance_witness :
  Binary64.valid_mdp T_swap R_unit = true
  /\ valid_policy 2 1 [0%Z; 0%Z] = true
  /\ exists V,
       Binary64.policy_evaluation 40 [0%Z; 0%Z] T_swap R_unit 0.5%float
         Binary64.default_epsilon = Return V
       /\ Binary64.within_tolerance [0%Z; 0%Z] T_swap R_unit 0.5%float
            Binary64.default_epsilon V.
Proof.
  split; [reflexivity|]. split; [reflexivity|].
  assert (Hrun : exists V,
            Binary64.policy_evaluation 40 [0%Z; 0%Z] T_swap R_unit 0.5%float
              Binary64.default_epsilon = Return V)
    by (eexists; vm_compute; reflexivity).
  destruct Hrun as [V Hrun]. exists V. split; [exact Hrun|].
  destruct (proj2 (proj2 (policy_evaluation_first_within_tolerance
                            [0%Z; 0%Z] T_swap R_unit 0.5%float
                            Binary64.default_epsilon eq_refl eq_refl))
              40%nat V Hrun) as (k & _ & _ & Hw & _).
  exact Hw.
Defined.

(** On two states that swap, with rewards [1e9] and [-1e9],
    [gamma = 0.5] and the default [epsilon], the values settle after 60
    updates into two arrays that follow each other and differ by one
    unit in the last place, about [1.2e-7]: the change never falls
    below [1e-8] and the function never returns. *)
Lemma policy_evaluation_rounding_cycle :
  Binary64.valid_mdp T_swap R_swap = true
  /\ valid_policy 2 1 [0%Z; 0%Z] = true
  /\ (PrimFloat.leb 0 0.5 = true /\ PrimFloat.ltb 0.5 1 = true
      /\ PrimFloat.ltb 0 Binary64.default_epsilon = true)
  /\ diverges (fun fuel =>
       Binary64.policy_evaluation fuel [0%Z; 0%Z] T_swap R_swap 0.5%float
         Binary64.default_epsilon).
Proof.
  split; [reflexivity|]. split; [reflexivity|].
  split; [repeat split; reflexivity|].
  assert (H : exists A,
            Binary64.advance 60 [0%Z; 0%Z] T_swap R_swap 0.5%float
              Binary64.default_epsilon 2 (Binary64.np_zeros 2) = Some A
            /\ Binary64.advance 2 [0%Z; 0%Z] T_swap R_swap 0.5%float
                 Binary64.default_epsilon 2 A = Some A).
  { eexists. split; vm_compute; reflexivity. }
  destruct H as (A & H1 & H2).
  intros fuel. unfold Binary64.policy_evaluation.
  exact (advance_lasso _ _ _ _ _ _ 60 2 _ A H1 ltac:(lia) H2 fuel).
Qed.

(** C7, amended.  [policy_evaluation] does not check [gamma].  In
    binary64, on a valid MDP and policy, for every [gamma] and every fuel
    it raises no exception, and it is still running exactly when no
    iterate so far passes the stopping test. *)
Theorem policy_evaluation_unchecked_gamma (pi : list Z)
    (T : Binary64.tensor) (R_sa : Binary64.matrix) (gamma epsilon : float)
    (fuel : nat) :
  Binary64.valid_mdp T R_sa = true ->
  valid_policy (length R_sa) (Binary64.num_actions R_sa) pi = true ->
  let B := Binary64.bellman_operator pi T R_sa gamma (length R_sa) in
  let V0 := Binary64.np_zeros (length R_sa) in
  (forall e,
     Binary64.policy_evaluation fuel pi T R_sa gamma epsilon <> Raise e)
  /\ (Binary64.policy_evaluation fuel pi T R_sa gamma epsilon = OutOfFuel <->
        forall i, (i < fuel)%nat ->
          ~ Binary64.within_tolerance pi T R_sa gamma epsilon
              (Nat.iter i B V0)).
Proof.
  intros Hmdp Hpi B V0. unfold Binary64.policy_evaluation. fold V0.
  destruct (evaluation_loop_outcome_float pi T R_sa gamma epsilon Hmdp Hpi
              fuel V0) as [(j & Hj & Hrun & Hw & Hmin)|[Hout Hall]].
  - apply length_replicate.
  - fold B in Hrun, Hw, Hmin. rewrite Hrun.
    split; [intros e; discriminate|].
    split; [discriminate|]. intros Hall. exfalso. exact (Hall j Hj Hw).
  - fold B in Hall. rewrite Hout.
    split; [intros e; discriminate|].
    split; [intros _; exact Hall | reflexivity].
Qed.

Lemma policy_evaluation_unchecked_gamma_witness :
  Binary64.valid_mdp T_swap R_unit = true
  /\ valid_policy 2 1 [0%Z; 0%Z] = true
  /\ (forall e,
        Binary64.policy_evaluation 7 [0%Z; 0%Z] T_swap R_unit 2%float
          Binary64.default_epsilon <> Raise e).
Proof.
  split; [reflexivity|]. split; [reflexivity|].
  exact (proj1 (policy_evaluation_unchecked_gamma [0%Z; 0%Z] T_swap R_unit
                  2%float Binary64.default_epsilon 7 eq_refl eq_refl)).
Defined.

(** With [gamma = 1] no exception is raised.  On two states that swap
    without reward the function returns the zero vector as for any other
    discount; with rewards [1] and [-1] the values alternate between
    [[0; 0]] and [[1; -1]], every update changes them by 1, and the loop
    never stops. *)
Lemma gamma_one_runs_forever :
  Binary64.valid_mdp T_swap R_none = true
  /\ Binary64.valid_mdp T_swap R_unit = true
  /\ valid_policy 2 1 [0%Z; 0%Z] = true
  /\ Binary64.policy_evaluation 1 [0%Z; 0%Z] T_swap R_none 1%float
       Binary64.default_epsilon = Return [0; 0]%float
  /\ diverges (fun fuel =>
       Binary64.policy_evaluation fuel [0%Z; 0%Z] T_swap R_unit 1%float
         Binary64.default_epsilon).
Proof.
  split; [reflexivity|]. split; [reflexivity|]. split; [reflexivity|].
  split; [vm_compute; reflexivity|].
  intros fuel. unfold Binary64.policy_evaluation.
  apply (advance_lasso _ _ _ _ _ _ 0 2 _ (Binary64.np_zeros 2));
    [reflexivity | lia | vm_compute; reflexivity].
Qed.
(** ** Policy improvement in binary64 *)

Section FloatArgmax.
Local Open Scope float_scope.

Lemma argmax_from_spec_float (rest pre : list float) (mp : float)
    (max_ind : nat) :
  (max_ind < length pre)%nat ->
  nth max_ind pre 0 = mp ->
  is_nan mp = false ->
  (forall j, (j < length pre)%nat -> (nth j pre 0 <=? mp) = true) ->
  (forall j, (j < max_ind)%nat -> (nth j pre 0 <? mp) = true) ->
  Binary64.argmax_result (pre ++ rest)
    (Binary64.argmax_from mp max_ind (length pre) rest).
Proof.
  revert pre mp max_ind.
  induction rest as [|x rest IH]; intros pre mp max_ind Hi Hmp Hnan Hle Hlt.
  - cbn [Binary64.argmax_from]. rewrite app_nil_r. unfold Binary64.argmax_result.
    rewrite Hmp. split; [exact Hi|]. right. split; assumption.
  - cbn [Binary64.argmax_from].
    assert (Hnth : forall j, (j < length pre)%nat ->
              nth j (pre ++ x :: rest) 0 = nth j pre 0)
      by (intros j Hj; apply app_nth1; exact Hj).
    assert (Hlast : nth (length pre) (pre ++ x :: rest) 0 = x)
      by (rewrite app_nth2 by lia; rewrite Nat.sub_diag; reflexivity).
    assert (Hnth1 : forall j, (j < length pre)%nat ->
              nth j (pre ++ [x]) 0 = nth j pre 0)
      by (intros j Hj; apply app_nth1; exact Hj).
    assert (Hlast1 : nth (length pre) (pre ++ [x]) 0 = x)
      by (rewrite app_nth2 by lia; rewrite Nat.sub_diag; reflexivity).
    assert (Hsplit : pre ++ x :: rest = (pre ++ [x]) ++ rest)
      by (rewrite <- app_assoc; reflexivity).
    assert (Hlen1 : length (pre ++ [x]) = S (length pre))
      by (rewrite length_app; simpl; lia).
    destruct (x <=? mp) eqn:Hcmp; cbn [negb].
    + rewrite Hsplit, <- Hlen1. apply IH.
      * lia.
      * rewrite Hnth1 by lia. exact Hmp.
      * exact Hnan.
      * intros j Hj. rewrite Hlen1 in Hj.
        destruct (Nat.eq_dec j (length pre)) as [->|Hne].
        -- rewrite Hlast1. exact Hcmp.
        -- rewrite Hnth1 by lia. apply Hle. lia.
      * intros j Hj. rewrite Hnth1 by lia. apply Hlt. exact Hj.
    + destruct (is_nan x) eqn:Hx.
      * unfold Binary64.argmax_result. split; [rewrite length_app; simpl; lia|].
        left. rewrite Hlast. split; [exact Hx|].
        intros j Hj. rewrite Hnth by exact Hj.
        exact (proj1 (leb_not_nan _ _ (Hle j Hj))).
      * pose proof (not_leb_ltb x mp Hx Hnan Hcmp) as Hgt.
        rewrite Hsplit, <- Hlen1. apply IH.
        -- lia.
        -- exact Hlast1.
        -- exact Hx.
        -- intros j Hj. rewrite Hlen1 in Hj.
           destruct (Nat.eq_dec j (length pre)) as [->|Hne].
           ++ rewrite Hlast1. apply leb_refl. exact Hx.
           ++ rewrite Hnth1 by lia. apply ltb_leb.
              apply (leb_ltb_trans _ mp); [apply Hle; lia | exact Hgt].
        -- intros j Hj. rewrite Hnth1 by lia.
           apply (leb_ltb_trans _ mp); [apply Hle; lia | exact Hgt].
Qed.

Lemma first_argmax_spec_float (row : list float) :
  (0 < length row)%nat -> Binary64.argmax_result row (Binary64.first_argmax row).
Proof.
  destruct row as [|x rest]; [simpl; lia|]. intros _.
  cbn [Binary64.first_argmax].
  destruct (is_nan x) eqn:Hx.
  - unfold Binary64.argmax_result. split; [simpl; lia|]. left.
    split; [exact Hx | intros j Hj; lia].
  - apply (argmax_from_spec_float rest [x] x 0).
    + simpl. lia.
    + reflexivity.
    + exact Hx.
    + intros [|j] Hj; simpl in Hj; [simpl; apply leb_refl; exact Hx | lia].
    + intros j Hj. lia.
Qed.

Lemma np_argmax_axis1_rows_float (Qm : Binary64.matrix) :
  Forall (fun row => (0 < length row)%nat) Qm ->
  Binary64.np_argmax_axis1 Qm
  = Return (map (fun row => Z.of_nat (Binary64.first_argmax row)) Qm).
Proof.
  induction 1 as [|row Qm Hrow _ IH]; [reflexivity|].
  cbn [Binary64.np_argmax_axis1 map].
  destruct row as [|x rest]; [simpl in Hrow; lia|].
  cbn [Binary64.np_argmax bind]. rewrite IH. reflexivity.
Qed.

Lemma policy_improvement_returns_float (V : list float) (T : Binary64.tensor)
    (R_sa : Binary64.matrix) (gamma : float) :
  let nS := length R_sa in
  let nA := Binary64.num_actions R_sa in
  has_shape2 nS nA R_sa = true -> has_shape3 nS nA nS T = true ->
  length V = nS -> (0 < nA)%nat ->
  let Qm := map (fun s => map (Binary64.bellman_rhs T R_sa gamma V nS s)
                              (seq 0 nA)) (seq 0 nS) in
  Binary64.policy_improvement V T R_sa gamma
  = Return (Qm, map (fun r => Z.of_nat (Binary64.first_argmax r)) Qm).
Proof.
  intros nS nA HR HT HV HnA Qm.
  unfold Binary64.policy_improvement.
  change (shape2 R_sa) with (nS, nA). cbv beta iota.
  rewrite (fill_Q_shapes_float V T R_sa gamma nS nA) by assumption.
  fold Qm. cbn [bind].
  rewrite np_argmax_axis1_rows_float; [reflexivity|].
  apply Forall_forall. intros r Hr. unfold Qm in Hr.
  apply list_elem_of_In, in_map_iff in Hr as (s & <- & _).
  rewrite length_map, length_seq. exact HnA.
Qed.
End FloatArgmax.
(** C2, amended.  In binary64, on arrays of the shapes of an MDP with
    at least one action, [policy_improvement] returns a table [Qm] with
    [Qm[s,a]] the sum [sum_{s'} T[s,a,s'] * (R_sa[s,a] + gamma * V[s'])]
    as binary64 arithmetic computes it, every product and sum rounded
    and the terms added from the left, and a policy [pi_new] whose entry
    at [s] is the index of the first NaN of row [s] of [Qm] when the row
    has one, and otherwise an index of the maximum of the row, every
    lower index having a strictly smaller value. *)
Theorem policy_improvement_rounded_greedy (V : list float)
    (T : Binary64.tensor) (R_sa : Binary64.matrix) (gamma : float) :
  let nS := length R_sa in
  let nA := Binary64.num_actions R_sa in
  has_shape2 nS nA R_sa = true -> has_shape3 nS nA nS T = true ->
  length V = nS -> (0 < nA)%nat ->
  exists (Qm : Binary64.matrix) (pi_new : list Z),
    Binary64.policy_improvement V T R_sa gamma = Return (Qm, pi_new)
    /\ has_shape2 nS nA Qm = true /\ length pi_new = nS
    /\ forall s, (s < nS)%nat ->
         (forall a, (a < nA)%nat ->
            Binary64.R_at Qm s a = Binary64.bellman_rhs T R_sa gamma V nS s a)
         /\ (0 <= nth s pi_new 0 < Z.of_nat nA)%Z
         /\ ((is_nan (Binary64.R_at Qm s (pi_at pi_new s)) = true
              /\ forall a, (a < pi_at pi_new s)%nat ->
                   is_nan (Binary64.R_at Qm s a) = false)
             \/ ((forall a, (a < nA)%nat ->
                    PrimFloat.leb (Binary64.R_at Qm s a)
                      (Binary64.R_at Qm s (pi_at pi_new s)) = true)
                 /\ forall a, (a < pi_at pi_new s)%nat ->
                      PrimFloat.ltb (Binary64.R_at Qm s a)
                        (Binary64.R_at Qm s (pi_at pi_new s)) = true)).
Proof.
  intros nS nA HR HT HV HnA.
  set (row := fun s => map (Binary64.bellman_rhs T R_sa gamma V nS s)
                           (seq 0 nA)).
  set (Qm := map row (seq 0 nS)).
  set (pi_new := map (fun r => Z.of_nat (Binary64.first_argmax r)) Qm).
  assert (Hrowlen : forall s, length (row s) = nA)
    by (intros s; unfold row; rewrite length_map, length_seq; reflexivity).
  assert (Hrows : forall s, (s < nS)%nat -> nth s Qm [] = row s)
    by (intros s Hs; apply nth_map_seq; exact Hs).
  assert (Hpi : forall s, (s < nS)%nat ->
            nth s pi_new 0%Z = Z.of_nat (Binary64.first_argmax (row s))).
  { intros s Hs. unfold pi_new.
    rewrite (nth_map_default _ Qm s [])
      by (unfold Qm; rewrite length_map, length_seq; exact Hs).
    rewrite Hrows by exact Hs. reflexivity. }
  exists Qm, pi_new. split; [|split; [|split]].
  - apply policy_improvement_returns_float; assumption.
  - unfold has_shape2. apply andb_true_intro. split.
    + apply Nat.eqb_eq. unfold Qm. rewrite length_map, length_seq. reflexivity.
    + apply forallb_forall. intros r Hr. unfold Qm in Hr.
      apply in_map_iff in Hr as (s & <- & _).
      apply Nat.eqb_eq. apply Hrowlen.
  - unfold pi_new, Qm. rewrite !length_map, length_seq. reflexivity.
  - intros s Hs.
    destruct (first_argmax_spec_float (row s)) as (Hlt & Hres);
      [rewrite Hrowlen; exact HnA|].
    rewrite Hrowlen in Hlt, Hres.
    assert (Hat : forall a, Binary64.R_at Qm s a = nth a (row s) 0%float)
      by (intros a; unfold Binary64.R_at; rewrite Hrows by exact Hs;
          reflexivity).
    assert (Hpis : pi_at pi_new s = Binary64.first_argmax (row s))
      by (unfold pi_at; rewrite Hpi by exact Hs; apply Nat2Z.id).
    rewrite Hpis, Hpi by exact Hs.
    split; [|split; [lia|]].
    + intros a Ha. rewrite Hat. unfold row. apply nth_map_seq. exact Ha.
    + destruct Hres as [[Hnan Hlow]|[Hmax Hfirst]]; [left|right]; split.
      * rewrite Hat. exact Hnan.
      * intros a Ha. rewrite Hat. apply Hlow. exact Ha.
      * intros a Ha. rewrite !Hat. apply Hmax. exact Ha.
      * intros a Ha. rewrite !Hat. apply Hfirst. exact Ha.
Qed.

Lemma policy_improvement_rounded_greedy_witness :
  has_shape2 1 2 R_stay = true /\ has_shape3 1 2 1 T_stay = true
  /\ exists Qm pi_new,
       Binary64.policy_improvement [18014398509481984%float] T_stay R_stay
         0.5%float = Return (Qm, pi_new)
       /\ forall s, (s < 1)%nat ->
            (0 <= nth s pi_new 0 < 2)%Z.
Proof.
  split; [reflexivity|]. split; [reflexivity|].
  destruct (policy_improvement_rounded_greedy [18014398509481984%float]
              T_stay R_stay 0.5%float eq_refl eq_refl eq_refl
              ltac:(cbn; lia))
    as (Qm & pi_new & Hrun & _ & _ & Hall).
  exists Qm, pi_new. split; [exact Hrun|].
  intros s Hs. destruct (Hall s Hs) as (_ & Hrange & _). exact Hrange.
Defined.

(** One state with value [2^54], two actions with rewards 0 and 1 and
    [gamma = 0.5]: the sums of the claim are [2^53] and [2^53 + 1], so
    the greedy action is 1, but [2^53 + 1] is not a binary64 number, the
    code computes [2^53] for both actions and returns action 0.  And
    where a sum overflows (a reward and a value both the largest
    binary64 number, on a transition of probability 0) the entry of [Q]
    is a NaN, which no comparison makes a maximum, and [np.argmax]
    returns its index. *)
Lemma policy_improvement_not_exact :
  Binary64.valid_mdp T_stay R_stay = true
  /\ valid_mdp T_stay_exact R_stay_exact = true
  /\ Binary64.policy_improvement [18014398509481984%float] T_stay R_stay
       0.5%float
     = Return ([ [9007199254740992; 9007199254740992] ]%float, [0%Z])
  /\ bellman_rhs T_stay_exact R_stay_exact (1 # 2) [18014398509481984] 1 0 0
     == 9007199254740992
  /\ bellman_rhs T_stay_exact R_stay_exact (1 # 2) [18014398509481984] 1 0 1
     == 9007199254740993
  /\ Binary64.valid_mdp T_rest R_huge = true
  /\ exists Qm,
       Binary64.policy_improvement [0; 0x1.fffffffffffffp+1023]%float
         T_rest R_huge 0.5%float = Return (Qm, [1%Z; 0%Z])
       /\ is_nan (Binary64.R_at Qm 0 0) = false
       /\ is_nan (Binary64.R_at Qm 0 1) = true.
Proof.
  split; [reflexivity|]. split; [reflexivity|].
  split; [vm_compute; reflexivity|].
  split; [vm_compute; reflexivity|].
  split; [vm_compute; reflexivity|].
  split; [reflexivity|].
  eexists. split; [vm_compute; reflexivity|].
  split; reflexivity.
Qed.
